(** * BirchEngine: the entity-component registry of [Src/ECS/ECS.h]

    A shallow embedding of the type-identity counter, [Entity] and
    [Manager], followed by the properties the engine's specification
    states about them.

    Objects created with [new] live in two stores (one for components,
    one for entities) and are named by their addresses; the static
    variables of [getComponentTypeID] form the registry; the calls made
    into component hooks are recorded in a call log. *)

From Stdlib Require Import ZArith Lia.
From stdpp Require Import base numbers option list gmap sets.

(** ** Type identities *)

(** A component kind is a C++ type [T]; kinds are named by naturals. *)
Abbreviation Kind := nat (only parsing).

(** An address returned by [new]. *)
Abbreviation addr := nat (only parsing).

(** [using ComponentID = std::size_t;] a 64-bit unsigned integer. *)
Abbreviation ComponentID := Z (only parsing).

Definition size_t_modulus : Z := 2 ^ 64.

(** [constexpr std::size_t maxComponents = 32;] *)
Definition maxComponents : Z := 32.

(** The static variables of the two [getComponentTypeID] functions:
    [lastID] of the counter, and [typeID] of each instantiation
    [getComponentTypeID<T>], present once it has been initialised. *)
Record Registry := mkRegistry {
  lastID : ComponentID;
  typeID : gmap Kind ComponentID
}.

(** State at program start: [lastID = 0], no [typeID] initialised. *)
Definition Registry_start : Registry := mkRegistry 0 ∅.

(** [inline ComponentID getComponentTypeID() { static ComponentID lastID = 0;
    return lastID++; }] *)
Definition getComponentTypeID (r : Registry) : ComponentID * Registry :=
  (lastID r, mkRegistry ((lastID r + 1) `mod` size_t_modulus) (typeID r)).

(** [template <typename T> inline ComponentID getComponentTypeID() noexcept
    { static ComponentID typeID = getComponentTypeID(); return typeID; }]
    The initialiser of the static runs on the first call only. *)
Definition getComponentTypeID_T (T : Kind) (r : Registry)
  : ComponentID * Registry :=
  match typeID r !! T with
  | Some i => (i, r)
  | None =>
      let '(i, r') := getComponentTypeID r in
      (i, mkRegistry (lastID r') (<[T := i]> (typeID r')))
  end.

(** A run of requests, in program order, with the identity each returned. *)
Fixpoint requests (Ts : list Kind) (r : Registry)
  : list ComponentID * Registry :=
  match Ts with
  | [] => ([], r)
  | T :: Ts' =>
      let '(i, r1) := getComponentTypeID_T T r in
      let '(ids, r2) := requests Ts' r1 in
      (i :: ids, r2)
  end.

(** The kinds of a run in the order of their first request. *)
Fixpoint first_uses_from (seen Ts : list Kind) : list Kind :=
  match Ts with
  | [] => []
  | T :: Ts' =>
      if decide (T ∈ seen) then first_uses_from seen Ts'
      else T :: first_uses_from (seen ++ [T]) Ts'
  end.

Definition first_uses (Ts : list Kind) : list Kind := first_uses_from [] Ts.

(** ** Objects, stores and the call log *)

(** [using ComponentBitSet = std::bitset<maxComponents>;] bit [i] of the
    integer is bit [i] of the bitset. *)
Abbreviation ComponentBitSet := Z (only parsing).

(** [using ComponentArray = std::array<Component*, maxComponents>;]
    [None] is the null pointer. *)
Abbreviation ComponentArray := (list (option addr)) (only parsing).

(** [class Component]: its dynamic type and the back-reference [entity].
    The hooks [init], [update], [draw] of the base class have empty
    bodies; a call to one is recorded in the call log. *)
Record Component := mkComponent {
  kind : Kind;
  entity : addr
}.

(** [class Entity]. [components] holds the owning pointers, in the order
    of [emplace_back]. *)
Record Entity := mkEntity {
  active : bool;
  components : list addr;
  componentArray : ComponentArray;
  componentBitSet : ComponentBitSet
}.

(** [new Entity()]: value-initialisation zeroes the object and then runs
    the default member initialiser [active = true]; the bitset's own
    constructor clears every bit. *)
Definition Entity_new : Entity :=
  mkEntity true [] (replicate (Z.to_nat maxComponents) None) 0.

(** [class Manager]: the owning pointers, in storage order. *)
Record Manager := mkManager {
  entities : list addr
}.

Definition Manager_new : Manager := mkManager [].

(** Calls observed during a run. *)
Inductive Event :=
| EntityUpdate (e : addr)       (* entry of [Entity::update] on [e] *)
| EntityDraw (e : addr)         (* entry of [Entity::draw] on [e] *)
| ComponentInit (c : addr)      (* [c->init()] *)
| ComponentUpdate (c : addr)    (* [c->update()] *)
| ComponentDraw (c : addr).     (* [c->draw()] *)

Record World := mkWorld {
  registry : Registry;
  component_store : gmap addr Component;
  entity_store : gmap addr Entity;
  calls : list Event
}.

Definition World_start : World := mkWorld Registry_start ∅ ∅ [].

(** What the language leaves without a result. *)
Inductive Fault :=
| NullSlot        (* a null [Component*] dereferenced *)
| OutOfBounds     (* an index beyond [maxComponents] *)
| Dangling        (* a reference to a destroyed entity used *)
| NoConversion.   (* an expression with no viable conversion *)

Inductive Result (A : Type) :=
| Ok (a : A)
| Undefined (f : Fault).
Arguments Ok {A} a.
Arguments Undefined {A} f.

(** Computations over the world. *)
Definition M (A : Type) : Type := World → Result (A * World).

Definition ret {A} (a : A) : M A := λ w, Ok (a, w).

Definition bind {A B} (m : M A) (k : A → M B) : M B :=
  λ w, match m w with
       | Ok (a, w') => k a w'
       | Undefined f => Undefined f
       end.

Definition undefined {A} (f : Fault) : M A := λ _, Undefined f.

Notation "x <- m ;; k" := (bind m (λ x, k))
  (at level 100, m at next level, right associativity).
Notation "m ;;; k" := (bind m (λ _, k))
  (at level 100, right associativity).

(** Range-[for] over a vector whose body does not resize it. *)
Fixpoint for_each {A} (l : list A) (body : A → M unit) : M unit :=
  match l with
  | [] => ret tt
  | x :: l' => body x ;;; for_each l' body
  end.

Definition call (ev : Event) : M unit :=
  λ w, Ok (tt, mkWorld (registry w) (component_store w) (entity_store w)
                       (calls w ++ [ev])).

(** [getComponentTypeID<T>()] on the registry of the world. *)
Definition typeID_of (T : Kind) : M ComponentID :=
  λ w, let '(i, r) := getComponentTypeID_T T (registry w) in
       Ok (i, mkWorld r (component_store w) (entity_store w) (calls w)).

(** Reading and writing the entity a reference designates. *)
Definition read (this : addr) : M Entity :=
  λ w, match entity_store w !! this with
       | Some E => Ok (E, w)
       | None => Undefined Dangling
       end.

Definition write (this : addr) (E : Entity) : M unit :=
  λ w, Ok (tt, mkWorld (registry w) (component_store w)
                       (<[this := E]> (entity_store w)) (calls w)).

(** [new T(...)] followed by [c->entity = this]: a component at an
    address no live component has. *)
Definition new_Component (T : Kind) (this : addr) : M addr :=
  λ w, let c := fresh (dom (component_store w)) in
       Ok (c, mkWorld (registry w)
                      (<[c := mkComponent T this]> (component_store w))
                      (entity_store w) (calls w)).

(** [new Entity()] at an address no live entity has. *)
Definition new_Entity : M addr :=
  λ w, let e := fresh (dom (entity_store w)) in
       Ok (e, mkWorld (registry w) (component_store w)
                      (<[e := Entity_new]> (entity_store w)) (calls w)).

Definition lift {A} (r : Result A) : M A :=
  λ w, match r with
       | Ok a => Ok (a, w)
       | Undefined f => Undefined f
       end.

(** ** [class Entity] *)

(** [void update() { for (auto& c : components) c->update(); }] *)
Definition Entity_update (this : addr) : M unit :=
  call (EntityUpdate this) ;;;
  E <- read this ;;
  for_each (components E) (λ c, call (ComponentUpdate c)).

(** [void draw() { for (auto& c : components) c->draw(); }] *)
Definition Entity_draw (this : addr) : M unit :=
  call (EntityDraw this) ;;;
  E <- read this ;;
  for_each (components E) (λ c, call (ComponentDraw c)).

(** [bool isActive() const { return active; }] *)
Definition Entity_isActive (this : addr) : M bool :=
  E <- read this ;;
  ret (active E).

(** [void destroy() { active = false; }] *)
Definition Entity_destroy (this : addr) : M unit :=
  E <- read this ;;
  write this (mkEntity false (components E) (componentArray E)
                       (componentBitSet E)).

(** What is handed to the constructor of [std::bitset]. *)
Inductive BitSetArgument :=
| Integer (v : Z)            (* an integral value *)
| FunctionName (T : Kind).   (* [getComponentTypeID<T>]: the function, not a call of it *)

(** [ComponentBitSet(x)]. [std::bitset<32>(unsigned long long)] keeps the
    low 32 bits of an integer; a function name decays to a pointer to
    function, which converts to no integer, and the remaining
    constructors take character strings. *)
Definition ComponentBitSet_of (x : BitSetArgument) : Result ComponentBitSet :=
  match x with
  | Integer v => Ok (v `mod` 2 ^ maxComponents)%Z
  | FunctionName _ => Undefined NoConversion
  end.

(** [return b;] in a function returning [bool], for [b] a
    [std::bitset]: the class declares no conversion function. *)
Definition bool_of_ComponentBitSet (b : ComponentBitSet) : Result bool :=
  Undefined NoConversion.

(** [template <typename T> bool hasComponent() const
    { return ComponentBitSet(getComponentTypeID<T>); }]
    The body names the type [ComponentBitSet], not the member
    [componentBitSet], and the function, not its result: no member of
    the entity is read and the registry is not consulted. *)
Definition Entity_hasComponent (T : Kind) (this : addr) : M bool :=
  b <- lift (ComponentBitSet_of (FunctionName T)) ;;
  lift (bool_of_ComponentBitSet b).

(** [0 <= i < maxComponents]: the index is inside the array and the
    bitset. *)
Definition in_bounds (i : ComponentID) : bool :=
  bool_decide (0 ≤ i < maxComponents)%Z.

(** [componentArray[i] = c;] *)
Definition componentArray_store (this : addr) (i : ComponentID) (c : addr)
  : M unit :=
  E <- read this ;;
  if in_bounds i
  then write this (mkEntity (active E) (components E)
                     (<[Z.to_nat i := Some c]> (componentArray E))
                     (componentBitSet E))
  else undefined OutOfBounds.

(** [componentBitSet[i] = true;] *)
Definition componentBitSet_set (this : addr) (i : ComponentID) : M unit :=
  E <- read this ;;
  if in_bounds i
  then write this (mkEntity (active E) (components E) (componentArray E)
                     (Z.lor (componentBitSet E) (Z.shiftl 1 i)))
  else undefined OutOfBounds.

(** [components.emplace_back(std::move(uPtr));] *)
Definition components_emplace_back (this : addr) (c : addr) : M unit :=
  E <- read this ;;
  write this (mkEntity (active E) (components E ++ [c]) (componentArray E)
                       (componentBitSet E)).

(** [template <typename T, typename... TArgs> T& addComponent(TArgs&&... mArgs)
    { T* c(new T(std::forward<TArgs>(mArgs)...)); c->entity = this;
      std::unique_ptr<Component> uPtr{ c };
      components.emplace_back(std::move(uPtr));
      componentArray[getComponentTypeID<T>()] = c;
      componentBitSet[getComponentTypeID<T>()] = true;
      c->init(); return *c; }] *)
Definition Entity_addComponent (T : Kind) (this : addr) : M addr :=
  c <- new_Component T this ;;
  components_emplace_back this c ;;;
  i <- typeID_of T ;;
  componentArray_store this i c ;;;
  j <- typeID_of T ;;
  componentBitSet_set this j ;;;
  call (ComponentInit c) ;;;
  ret c.

(** [template<typename T> T& getComponent() const
    { auto ptr(componentArray[getComponentTypeID<T>()]);
      return *static_cast<T*>(ptr); }] *)
Definition Entity_getComponent (T : Kind) (this : addr) : M addr :=
  i <- typeID_of T ;;
  E <- read this ;;
  if in_bounds i
  then match componentArray E !! Z.to_nat i with
       | Some (Some c) => ret c
       | Some None => undefined NullSlot
       | None => undefined OutOfBounds
       end
  else undefined OutOfBounds.

(** The bit the bitset of an entity records for an identity. *)
Definition recorded (E : Entity) (i : ComponentID) : bool :=
  Z.testbit (componentBitSet E) i.

(** ** [class Manager] *)

(** [void update() { for (auto& e : entities) e->update(); }] *)
Definition Manager_update (m : Manager) : M unit :=
  for_each (entities m) Entity_update.

(** [void draw() { for (auto& e : entities) e->draw(); }] *)
Definition Manager_draw (m : Manager) : M unit :=
  for_each (entities m) Entity_draw.

(** [delete] of an entity: the vector [components] deletes every
    component it owns, then the entity itself goes. *)
Definition delete_Entity (e : addr) : M unit :=
  E <- read e ;;
  λ w, Ok (tt, mkWorld (registry w)
                 (foldr delete (component_store w) (components E))
                 (delete e (entity_store w)) (calls w)).

(** [std::remove_if] with the predicate [!mEntity->isActive()], followed
    by [erase] of the tail: the kept pointers stay in their relative
    order; each dropped owning pointer deletes its entity. The owning
    pointers of a vector are distinct, so the moment at which a dropped
    entity is deleted is not observed by the tests that follow. *)
Fixpoint remove_if_not_active (l : list addr) : M (list addr) :=
  match l with
  | [] => ret []
  | e :: l' =>
      a <- Entity_isActive e ;;
      if a
      then (kept <- remove_if_not_active l' ;; ret (e :: kept))
      else (delete_Entity e ;;; remove_if_not_active l')
  end.

(** [void refresh() { entities.erase(std::remove_if(std::begin(entities),
    std::end(entities), [](const std::unique_ptr<Entity>& mEntity)
    { return !mEntity->isActive(); }), std::end(entities)); }] *)
Definition Manager_refresh (m : Manager) : M Manager :=
  kept <- remove_if_not_active (entities m) ;;
  ret (mkManager kept).

(** [Entity& addEntity() { Entity* e = new Entity();
    std::unique_ptr<Entity> uPtr{ e };
    entities.emplace_back(std::move(uPtr)); return *e; }] *)
Definition Manager_addEntity (m : Manager) : M (addr * Manager) :=
  e <- new_Entity ;;
  ret (e, mkManager (entities m ++ [e])).

(** Modelled from the spec: the frame driver ([Game::update] and
    [Game::render]) is not part of the sources at hand; per tick it
    calls [Manager.update()] and then [Manager.draw()]. *)
Definition Manager_tick (m : Manager) : M unit :=
  Manager_update m ;;;
  Manager_draw m.

(** ** The interface as a set of operations *)

Inductive Operation :=
| Op_update (e : addr)
| Op_draw (e : addr)
| Op_isActive (e : addr)
| Op_destroy (e : addr)
| Op_hasComponent (T : Kind) (e : addr)
| Op_addComponent (T : Kind) (e : addr)
| Op_getComponent (T : Kind) (e : addr)
| Op_Manager_update
| Op_Manager_draw
| Op_Manager_refresh
| Op_Manager_addEntity.

Definition perform (op : Operation) (m : Manager) : M Manager :=
  match op with
  | Op_update e => Entity_update e ;;; ret m
  | Op_draw e => Entity_draw e ;;; ret m
  | Op_isActive e => Entity_isActive e ;;; ret m
  | Op_destroy e => Entity_destroy e ;;; ret m
  | Op_hasComponent T e => Entity_hasComponent T e ;;; ret m
  | Op_addComponent T e => Entity_addComponent T e ;;; ret m
  | Op_getComponent T e => Entity_getComponent T e ;;; ret m
  | Op_Manager_update => Manager_update m ;;; ret m
  | Op_Manager_draw => Manager_draw m ;;; ret m
  | Op_Manager_refresh => Manager_refresh m
  | Op_Manager_addEntity => em <- Manager_addEntity m ;; ret (snd em)
  end.

(** ** Predicates used in the statements *)

(** The registry has handed out identities to exactly the kinds of
    [order], the [n]-th of them receiving [n]. *)
Definition Registry_tracks (order : list Kind) (r : Registry) : Prop :=
  NoDup order ∧
  (Z.of_nat (length order) ≤ size_t_modulus)%Z ∧
  lastID r = (Z.of_nat (length order) `mod` size_t_modulus)%Z ∧
  size (typeID r) = length order ∧
  ∀ T i, typeID r !! T = Some i ↔
         ∃ n, order !! n = Some T ∧ i = Z.of_nat n.

(** The array of an entity has its [maxComponents] slots. *)
Definition Entity_wf (E : Entity) : Prop :=
  length (componentArray E) = Z.to_nat maxComponents.

(** The bitset of an entity and its table agree: a bit is set exactly
    where the slot holds a component. *)
Definition Entity_consistent (E : Entity) : Prop :=
  Entity_wf E ∧
  ∀ i, in_bounds i = true →
       (recorded E i = true ↔
        ∃ c, componentArray E !! Z.to_nat i = Some (Some c)).

(** The flag of the entity at [e], [false] once it is destroyed. *)
Definition is_active (w : World) (e : addr) : bool :=
  match entity_store w !! e with
  | Some E => active E
  | None => false
  end.

(** The owning pointers of a manager are distinct and point to live
    entities. *)
Definition Manager_wf (m : Manager) (w : World) : Prop :=
  NoDup (entities m) ∧ ∀ e, e ∈ entities m → is_Some (entity_store w !! e).

(** The components owned by the entity at [e]. *)
Definition components_of (w : World) (e : addr) : list addr :=
  match entity_store w !! e with
  | Some E => components E
  | None => []
  end.

Definition update_calls (w : World) (e : addr) : list Event :=
  EntityUpdate e :: map ComponentUpdate (components_of w e).

Definition draw_calls (w : World) (e : addr) : list Event :=
  EntityDraw e :: map ComponentDraw (components_of w e).

Definition is_update (ev : Event) : bool :=
  match ev with
  | EntityUpdate _ | ComponentUpdate _ => true
  | _ => false
  end.

Definition is_draw (ev : Event) : bool :=
  match ev with
  | EntityDraw _ | ComponentDraw _ => true
  | _ => false
  end.

(** The entities whose [update()], respectively [draw()], a log enters,
    in order. *)
Definition entity_updates (evs : list Event) : list addr :=
  omap (λ ev, match ev with EntityUpdate e => Some e | _ => None end) evs.

Definition entity_draws (evs : list Event) : list addr :=
  omap (λ ev, match ev with EntityDraw e => Some e | _ => None end) evs.

Definition log (w : World) (evs : list Event) : World :=
  mkWorld (registry w) (component_store w) (entity_store w) (calls w ++ evs).

(** The entity at [e] is live and its flag is cleared. *)
Definition inactive_at (w : World) (e : addr) : Prop :=
  ∃ E, entity_store w !! e = Some E ∧ active E = false.

(** No entity that is live and inactive in [w] is active in [w']. *)
Definition not_revived (w w' : World) : Prop :=
  ∀ e E', inactive_at w e → entity_store w' !! e = Some E' →
          active E' = false.

(** How an operation other than [refresh] changes the store of
    entities: not at all, by writing one live entity in place without
    setting a cleared flag, or by adding a new entity at an unused
    address. *)
Inductive store_grows (s s' : gmap addr Entity) : Prop :=
| grows_same :
    s' = s → store_grows s s'
| grows_in_place this E E1 :
    s !! this = Some E →
    (active E = false → active E1 = false) →
    s' = <[this := E1]> s →
    store_grows s s'
| grows_new :
    s' = <[fresh (dom s) := Entity_new]> s → store_grows s s'.

(** A sequence of operations, the manager threaded through. *)
Fixpoint perform_all (ops : list Operation) (m : Manager) : M Manager :=
  match ops with
  | [] => ret m
  | op :: ops' => m1 <- perform op m ;; perform_all ops' m1
  end.

(** Two entities are created and a component of kind [T] is attached to
    the first only; the result is the pair of the two entities. *)
Definition attach_to_first (T : Kind) (m : Manager) : M (addr * addr) :=
  a <- Manager_addEntity m ;;
  b <- Manager_addEntity (snd a) ;;
  Entity_addComponent T (fst a) ;;;
  ret (fst a, fst b).

(** ** A sample population

    Three entities A, B, C at the addresses 0, 1, 2, created in this
    order; B received one component of kind 0 and was then destroyed. *)
Definition entity_B : Entity :=
  mkEntity false [0] (<[0%nat := Some 0]> (componentArray Entity_new)) 1.

Definition world_ABC : World :=
  mkWorld (mkRegistry 1 {[ 0%nat := 0%Z ]})
          {[ 0%nat := mkComponent 0 1 ]}
          {[ 0%nat := Entity_new; 1%nat := entity_B; 2%nat := Entity_new ]}
          [ComponentInit 0].

Definition manager_ABC : Manager := mkManager [0; 1; 2].

(** The calls that build the sample population. *)
Definition build_ABC : M Manager :=
  a <- Manager_addEntity Manager_new ;;
  b <- Manager_addEntity (snd a) ;;
  c <- Manager_addEntity (snd b) ;;
  Entity_addComponent 0 (fst b) ;;;
  Entity_destroy (fst b) ;;;
  ret (snd c).

(** One entity at address 0 that received components of the kinds 4, 9
    and 2, in this order, and was then destroyed. *)
Definition entity_XYZ : Entity :=
  mkEntity false [0; 1; 2]
    (<[2%nat := Some 2]> (<[1%nat := Some 1]> (<[0%nat := Some 0]>
       (componentArray Entity_new))))
    7.

Definition world_XYZ : World :=
  mkWorld (mkRegistry 3 {[ 4%nat := 0%Z; 9%nat := 1%Z; 2%nat := 2%Z ]})
          {[ 0%nat := mkComponent 4 0; 1%nat := mkComponent 9 0;
             2%nat := mkComponent 2 0 ]}
          {[ 0%nat := entity_XYZ ]}
          [ComponentInit 0; ComponentInit 1; ComponentInit 2].

Definition build_XYZ : M unit :=
  e <- Manager_addEntity Manager_new ;;
  Entity_addComponent 4 (fst e) ;;;
  Entity_addComponent 9 (fst e) ;;;
  Entity_addComponent 2 (fst e) ;;;
  Entity_destroy (fst e).

(** The world after one [addEntity] at program start. *)
Definition world_one : World :=
  mkWorld Registry_start ∅ {[ 0%nat := Entity_new ]} [].

(** A world in which 32 kinds, 0 to 31, have been registered, with one
    new entity at address 0. *)
Definition world_full : World :=
  mkWorld (snd (requests (seq 0 32) Registry_start)) ∅
          {[ 0%nat := Entity_new ]} [].

(** ** The state the interface maintains *)

(** What holds of a live entity [E] at address [e]: its bitset and table
    agree; the owning pointers of [components] are distinct and each
    points to a live component whose back-reference is [e]; every
    pointer in the table is one of the owned ones, and it sits in the
    slot of the identity of its own kind. *)
Definition Entity_ok (w : World) (e : addr) (E : Entity) : Prop :=
  Entity_consistent E ∧
  NoDup (components E) ∧
  (∀ c, c ∈ components E →
        ∃ T, component_store w !! c = Some (mkComponent T e)) ∧
  (∀ i c, componentArray E !! i = Some (Some c) →
          c ∈ components E ∧
          ∃ T, component_store w !! c = Some (mkComponent T e) ∧
               typeID (registry w) !! T = Some (Z.of_nat i)).

(** The registry is one that requests from program start produce, short
    of the wrap-around of the counter, and every live entity is in
    order. *)
Definition World_ok (w : World) : Prop :=
  (∃ order, Registry_tracks order (registry w) ∧
            (Z.of_nat (length order) < size_t_modulus)%Z) ∧
  ∀ e E, entity_store w !! e = Some E → Entity_ok w e E.

Definition System_ok (m : Manager) (w : World) : Prop :=
  Manager_wf m w ∧ World_ok w.

(** Every live component is owned by a live entity, the one its
    back-reference names. *)
Definition No_orphans (w : World) : Prop :=
  ∀ c C, component_store w !! c = Some C →
         ∃ E, entity_store w !! entity C = Some E ∧ c ∈ components E.

(** What an operation may do to an entity that stays live: the flag is
    not set again, components are only appended, no bit is cleared and
    no slot is emptied. *)
Definition Entity_extends (E E' : Entity) : Prop :=
  (active E = false → active E' = false) ∧
  components E `prefix_of` components E' ∧
  (∀ i, recorded E i = true → recorded E' i = true) ∧
  (∀ i c, componentArray E !! i = Some (Some c) →
          ∃ c', componentArray E' !! i = Some (Some c')).

(** [addComponent<T>] called twice in a row on one entity. *)
Definition attach_twice (T : Kind) (this : addr) : M (addr * addr) :=
  c1 <- Entity_addComponent T this ;;
  c2 <- Entity_addComponent T this ;;
  ret (c1, c2).

(** [addEntity] followed by [refresh]. *)
Definition addEntity_then_refresh (m : Manager) : M (addr * Manager) :=
  em <- Manager_addEntity m ;;
  m2 <- Manager_refresh (snd em) ;;
  ret (fst em, m2).

#[global] Instance Event_eq_dec : EqDecision Event.
Proof. solve_decision. Defined.

#[global] Instance ComponentUpdate_inj : Inj (=) (=) ComponentUpdate.
Proof. by intros c1 c2 [= ->]. Qed.

#[global] Instance ComponentDraw_inj : Inj (=) (=) ComponentDraw.
Proof. by intros c1 c2 [= ->]. Qed.

(** How often [x] occurs in a list. *)
Definition occurrences {A} `{EqDecision A} (x : A) (l : list A) : nat :=
  length (filter (λ y, y = x) l).

(** ** The frame loop of [main.cpp]

    [frameStart] is a [Uint32]; [frameTime] is an [int]. Whatever the
    width of the value [SDL_GetTicks()] returns, the [int] stored in
    [frameTime] is the difference of the two readings modulo [2^32],
    read as a signed 32-bit integer. Readings are given modulo
    [2^32]. *)

(** [const int FPS = 60;] *)
Definition FPS : Z := 60.

(** [const int frameDelay = 1000 / FPS;] with the division of [int]. *)
Definition frameDelay : Z := 1000 ÷ FPS.

Definition Uint32_modulus : Z := 2 ^ 32.

Definition INT_MAX : Z := 2 ^ 31 - 1.

(** Conversion of a 32-bit unsigned value to [int]. *)
Definition int_of_Uint32 (u : Z) : Z :=
  if (u <=? INT_MAX)%Z then u else (u - Uint32_modulus)%Z.

(** [frameTime = SDL_GetTicks() - frameStart;] for the reading [now]. *)
Definition frameTime (frameStart now : Z) : Z :=
  int_of_Uint32 ((now - frameStart) `mod` Uint32_modulus).

(** What the loop does at the end of a frame. *)
Inductive Pacing :=
| NoDelay                (* the test fails: [SDL_Delay] is not called *)
| Delay (ms : Z)         (* [SDL_Delay(ms)] *)
| DelayOverflow.         (* [frameDelay - frameTime] overflows [int] *)

(** [if (frameDelay > frameTime) { SDL_Delay(frameDelay - frameTime); }]
    The argument is an [int] converted to the [Uint32] parameter. *)
Definition frame_pacing (frameStart now : Z) : Pacing :=
  let t := frameTime frameStart now in
  if (t <? frameDelay)%Z
  then if (frameDelay - t <=? INT_MAX)%Z
       then Delay ((frameDelay - t) `mod` Uint32_modulus)
       else DelayOverflow
  else NoDelay.

(** * Properties *)

(** ** The type-identity registry *)

Lemma Registry_tracks_start : Registry_tracks [] Registry_start.
Proof.
  split; [apply NoDup_nil_2|]. split; [done|]. split; [done|].
  split; [done|]. intros T i. simpl. rewrite lookup_empty. split; [done|].
  intros [n [Hn _]]. by rewrite lookup_nil in Hn.
Qed.

Lemma Registry_tracks_known order r T n :
  Registry_tracks order r → order !! n = Some T →
  getComponentTypeID_T T r = (Z.of_nat n, r).
Proof.
  intros (_ & _ & _ & _ & Hmap) Hn. unfold getComponentTypeID_T.
  assert (typeID r !! T = Some (Z.of_nat n)) as -> by (apply Hmap; eauto).
  done.
Qed.

Lemma Registry_tracks_fresh order r T :
  Registry_tracks order r → T ∉ order →
  typeID r !! T = None.
Proof.
  intros (_ & _ & _ & _ & Hmap) Hnot.
  destruct (typeID r !! T) as [i|] eqn:HT; [|done].
  apply Hmap in HT as (n & Hn & _).
  destruct Hnot. by eapply list_elem_of_lookup_2.
Qed.

Lemma Registry_tracks_new order r T :
  Registry_tracks order r → T ∉ order →
  (Z.of_nat (length order) < size_t_modulus)%Z →
  ∃ r', getComponentTypeID_T T r = (Z.of_nat (length order), r') ∧
        Registry_tracks (order ++ [T]) r'.
Proof.
  intros Htr Hnot Hroom.
  pose proof (Registry_tracks_fresh _ _ _ Htr Hnot) as Hnone.
  destruct Htr as (Hnd & Hle & Hlast & Hsize & Hmap).
  unfold getComponentTypeID_T, getComponentTypeID. rewrite Hnone. simpl.
  assert (lastID r = Z.of_nat (length order)) as Hid.
  { rewrite Hlast. apply Z.mod_small. lia. }
  rewrite Hid. eexists. split; [done|].
  split; [|split; [|split; [|split]]]; simpl.
  - apply NoDup_app. repeat split; [done| |apply NoDup_singleton].
    intros x Hx Hx'. apply list_elem_of_singleton in Hx'. by subst.
  - rewrite length_app. simpl. lia.
  - rewrite length_app. simpl. f_equal. lia.
  - rewrite map_size_insert_None by done. rewrite length_app. simpl. lia.
  - intros T0 i. split.
    + intros Hi. destruct (decide (T0 = T)) as [->|Hne].
      * rewrite lookup_insert_eq in Hi. injection Hi as <-.
        exists (length order). split; [|done].
        rewrite lookup_app_r by lia. by rewrite Nat.sub_diag.
      * rewrite lookup_insert_ne in Hi by done.
        apply Hmap in Hi as (n & Hn & ->). exists n. split; [|done].
        by apply lookup_app_l_Some.
    + intros (n & Hn & ->).
      destruct (decide (n < length order)%nat) as [Hlt|Hge].
      * rewrite lookup_app_l in Hn by done.
        assert (T0 ≠ T) as Hne.
        { intros ->. destruct Hnot. by eapply list_elem_of_lookup_2. }
        rewrite lookup_insert_ne by done. apply Hmap. eauto.
      * rewrite lookup_app_r in Hn by lia.
        destruct (n - length order)%nat as [|k] eqn:Hk; simpl in Hn; [|done].
        injection Hn as <-. rewrite lookup_insert_eq.
        do 2 f_equal. lia.
Qed.

Lemma requests_tracks Ts : ∀ seen r,
  Registry_tracks seen r →
  (Z.of_nat (length (seen ++ first_uses_from seen Ts)) ≤ size_t_modulus)%Z →
  ∃ ids r',
    requests Ts r = (ids, r') ∧
    Registry_tracks (seen ++ first_uses_from seen Ts) r' ∧
    Forall2 (λ T i, ∃ n, (seen ++ first_uses_from seen Ts) !! n = Some T ∧
                         i = Z.of_nat n) Ts ids.
Proof.
  induction Ts as [|T Ts IH]; intros seen r Htr Hlen; simpl in *.
  - exists [], r. rewrite app_nil_r. split; [done|]. split; [done|]. constructor.
  - destruct (decide (T ∈ seen)) as [Hin|Hnot].
    + apply list_elem_of_lookup_1 in Hin as [n Hn].
      rewrite (Registry_tracks_known _ _ _ _ Htr Hn).
      destruct (IH seen r Htr Hlen) as (ids & r' & -> & Htr' & Hall).
      exists (Z.of_nat n :: ids), r'. split; [done|]. split; [done|].
      constructor; [|done]. exists n. split; [|done].
      by apply lookup_app_l_Some.
    + rewrite cons_middle, app_assoc in Hlen |- *.
      assert (Z.of_nat (length seen) < size_t_modulus)%Z as Hroom.
      { rewrite !length_app in Hlen. simpl in Hlen. lia. }
      destruct (Registry_tracks_new _ _ _ Htr Hnot Hroom) as (r1 & -> & Htr1).
      destruct (IH _ r1 Htr1 Hlen) as (ids & r' & -> & Htr' & Hall).
      exists (Z.of_nat (length seen) :: ids), r'.
      split; [done|]. split; [done|].
      constructor; [|done]. exists (length seen). split; [|done].
      apply lookup_app_l_Some. rewrite lookup_app_r by lia.
      by rewrite Nat.sub_diag.
Qed.

Lemma requests_start Ts :
  (Z.of_nat (length (first_uses Ts)) ≤ size_t_modulus)%Z →
  ∃ ids r,
    requests Ts Registry_start = (ids, r) ∧
    Registry_tracks (first_uses Ts) r ∧
    Forall2 (λ T i, ∃ n, first_uses Ts !! n = Some T ∧ i = Z.of_nat n) Ts ids.
Proof.
  intros Hlen.
  apply (requests_tracks Ts [] Registry_start Registry_tracks_start Hlen).
Qed.

Lemma first_uses_from_elem Ts : ∀ seen T,
  T ∈ seen ++ first_uses_from seen Ts ↔ T ∈ seen ++ Ts.
Proof.
  induction Ts as [|U Ts IH]; intros seen T; simpl; [done|].
  destruct (decide (U ∈ seen)) as [Hin|Hnot].
  - rewrite IH. rewrite !elem_of_app, elem_of_cons.
    split; [tauto|]. intros [?|[->|?]]; tauto.
  - rewrite (cons_middle U seen), (cons_middle U seen Ts), !app_assoc.
    apply IH.
Qed.

Lemma first_uses_elem Ts T : T ∈ first_uses Ts ↔ T ∈ Ts.
Proof. apply (first_uses_from_elem Ts [] T). Qed.

(** C5. Starting from the state at program start, any run of requests
    returns one identity per request; two requests return the same
    identity exactly when they ask for the same kind; and the kind that
    is the [n]-th to be requested for the first time receives [n] at
    every request, so that the identities are 0, 1, 2, ... in first-use
    order, each below the number of kinds requested. The run is one in
    which the 64-bit counter does not wrap. *)
Theorem getComponentTypeID_dense (Ts : list Kind) :
  (Z.of_nat (length (first_uses Ts)) ≤ size_t_modulus)%Z →
  let ids := fst (requests Ts Registry_start) in
  length ids = length Ts ∧
  (∀ p q T U i j,
     Ts !! p = Some T → Ts !! q = Some U →
     ids !! p = Some i → ids !! q = Some j →
     (T = U ↔ i = j)) ∧
  NoDup (first_uses Ts) ∧
  (∀ T, T ∈ Ts → T ∈ first_uses Ts) ∧
  (∀ n T p,
     first_uses Ts !! n = Some T → Ts !! p = Some T →
     ids !! p = Some (Z.of_nat n)) ∧
  (∀ p i, ids !! p = Some i →
          (0 ≤ i < Z.of_nat (length (first_uses Ts)))%Z).
Proof.
  intros Hlen.
  destruct (requests_start Ts Hlen) as (ids & r & Hrun & Htr & Hall).
  rewrite Hrun. simpl. destruct Htr as (Hnd & _).
  assert (∀ p T i, Ts !! p = Some T → ids !! p = Some i →
            ∃ n, first_uses Ts !! n = Some T ∧ i = Z.of_nat n) as Hat.
  { intros p T i HT Hi.
    by destruct (Forall2_lookup_lr _ _ _ _ _ _ Hall HT Hi) as (n & ? & ?); eauto. }
  split; [symmetry; by eapply Forall2_length|].
  split.
  { intros p q T U i j HT HU Hi Hj.
    destruct (Hat _ _ _ HT Hi) as (n & Hn & ->).
    destruct (Hat _ _ _ HU Hj) as (n' & Hn' & ->).
    split.
    - intros ->. f_equal. by eapply NoDup_lookup.
    - intros Heq. assert (n = n') as -> by lia. congruence. }
  split; [done|].
  split; [intros T HT; by apply first_uses_elem|].
  split.
  - intros n T p Hn Hp.
    destruct (lookup_lt_is_Some_2 ids p) as [i Hi].
    { erewrite <- Forall2_length by done. by eapply lookup_lt_Some. }
    destruct (Hat _ _ _ Hp Hi) as (n' & Hn' & ->).
    rewrite Hi. do 3 f_equal. by eapply NoDup_lookup.
  - intros p i Hi.
    destruct (lookup_lt_is_Some_2 Ts p) as [T HT].
    { erewrite Forall2_length by done. by eapply lookup_lt_Some. }
    destruct (Hat _ _ _ HT Hi) as (n & Hn & ->).
    apply lookup_lt_Some in Hn. lia.
Qed.

Lemma getComponentTypeID_dense_witness :
  Z.le (Z.of_nat (length (first_uses [5; 3; 5; 7; 3]))) size_t_modulus ∧
  fst (requests [5; 3; 5; 7; 3] Registry_start) !! 3%nat = Some 2%Z.
Proof.
  assert (Z.le (Z.of_nat (length (first_uses [5; 3; 5; 7; 3]))) size_t_modulus)
    as Hlen by (vm_compute; discriminate).
  split; [exact Hlen|].
  destruct (getComponentTypeID_dense [5; 3; 5; 7; 3] Hlen)
    as (_ & _ & _ & _ & Hnth & _).
  apply (Hnth 2%nat 7 3%nat); reflexivity.
Defined.

Lemma getComponentTypeID_T_again T r i r' :
  getComponentTypeID_T T r = (i, r') →
  getComponentTypeID_T T r' = (i, r').
Proof.
  unfold getComponentTypeID_T, getComponentTypeID.
  destruct (typeID r !! T) as [k|] eqn:HT; intros [= <- <-].
  - by rewrite HT.
  - simpl. by rewrite lookup_insert_eq.
Qed.

(** ** Entities *)

Lemma World_eta w :
  mkWorld (registry w) (component_store w) (entity_store w) (calls w) = w.
Proof. by destruct w. Qed.

Lemma log_nil w : log w [] = w.
Proof. unfold log. rewrite app_nil_r. apply World_eta. Qed.

Lemma log_log w evs evs' : log (log w evs) evs' = log w (evs ++ evs').
Proof. unfold log. simpl. by rewrite app_assoc. Qed.

Lemma for_each_call (f : addr → Event) l : ∀ w,
  for_each l (λ c, call (f c)) w = Ok (tt, log w (map f l)).
Proof.
  induction l as [|c l IH]; intros w; simpl.
  - unfold ret. by rewrite log_nil.
  - unfold bind, call at 1. rewrite IH. unfold log. simpl.
    by rewrite <- app_assoc.
Qed.

Lemma Entity_update_spec this w E :
  entity_store w !! this = Some E →
  Entity_update this w =
    Ok (tt, log w (EntityUpdate this :: map ComponentUpdate (components E))).
Proof.
  intros HE. unfold Entity_update, bind, call at 1, read. simpl. rewrite HE.
  rewrite for_each_call. unfold log. simpl. by rewrite <- app_assoc.
Qed.

Lemma Entity_draw_spec this w E :
  entity_store w !! this = Some E →
  Entity_draw this w =
    Ok (tt, log w (EntityDraw this :: map ComponentDraw (components E))).
Proof.
  intros HE. unfold Entity_draw, bind, call at 1, read. simpl. rewrite HE.
  rewrite for_each_call. unfold log. simpl. by rewrite <- app_assoc.
Qed.

Lemma Entity_destroy_spec this w E :
  entity_store w !! this = Some E →
  Entity_destroy this w =
    Ok (tt, mkWorld (registry w) (component_store w)
              (<[this := mkEntity false (components E) (componentArray E)
                                  (componentBitSet E)]> (entity_store w))
              (calls w)).
Proof. intros HE. unfold Entity_destroy, bind, read, write. by rewrite HE. Qed.

Lemma Entity_isActive_spec this w E :
  entity_store w !! this = Some E →
  Entity_isActive this w = Ok (active E, w).
Proof. intros HE. unfold Entity_isActive, bind, read, ret. by rewrite HE. Qed.

(** The state [addComponent] leaves, written out. *)
Lemma Entity_addComponent_spec T this w E i r' :
  entity_store w !! this = Some E →
  getComponentTypeID_T T (registry w) = (i, r') →
  in_bounds i = true →
  let c := fresh (dom (component_store w)) in
  Entity_addComponent T this w =
    Ok (c, mkWorld r'
             (<[c := mkComponent T this]> (component_store w))
             (<[this := mkEntity (active E) (components E ++ [c])
                          (<[Z.to_nat i := Some c]> (componentArray E))
                          (Z.lor (componentBitSet E) (Z.shiftl 1 i))]>
                (entity_store w))
             (calls w ++ [ComponentInit c])).
Proof.
  intros HE Hid Hin c.
  unfold Entity_addComponent, components_emplace_back, componentArray_store,
    componentBitSet_set, new_Component, typeID_of, call, read, write, ret,
    bind; simpl.
  fold c. rewrite HE. simpl. rewrite Hid. simpl.
  rewrite lookup_insert_eq, Hin. simpl.
  rewrite (getComponentTypeID_T_again _ _ _ _ Hid). simpl.
  rewrite lookup_insert_eq, Hin. simpl.
  by rewrite !insert_insert_eq.
Qed.

Lemma Entity_getComponent_spec T this w E i r' slot :
  entity_store w !! this = Some E →
  getComponentTypeID_T T (registry w) = (i, r') →
  in_bounds i = true →
  componentArray E !! Z.to_nat i = Some slot →
  Entity_getComponent T this w =
    match slot with
    | Some c => Ok (c, mkWorld r' (component_store w) (entity_store w)
                         (calls w))
    | None => Undefined NullSlot
    end.
Proof.
  intros HE Hid Hin Hslot.
  unfold Entity_getComponent, typeID_of, read, ret, undefined, bind; simpl.
  rewrite Hid. simpl. rewrite HE, Hin, Hslot. by destruct slot.
Qed.

Lemma Entity_getComponent_beyond T this w E i r' :
  entity_store w !! this = Some E →
  getComponentTypeID_T T (registry w) = (i, r') →
  in_bounds i = false →
  Entity_getComponent T this w = Undefined OutOfBounds.
Proof.
  intros HE Hid Hin.
  unfold Entity_getComponent, typeID_of, read, ret, undefined, bind; simpl.
  rewrite Hid. simpl. by rewrite HE, Hin.
Qed.

Lemma Entity_addComponent_beyond T this w E i r' :
  entity_store w !! this = Some E →
  getComponentTypeID_T T (registry w) = (i, r') →
  in_bounds i = false →
  Entity_addComponent T this w = Undefined OutOfBounds.
Proof.
  intros HE Hid Hin.
  unfold Entity_addComponent, components_emplace_back, componentArray_store,
    componentBitSet_set, new_Component, typeID_of, call, read, write, ret,
    undefined, bind; simpl.
  rewrite HE. simpl. rewrite Hid. simpl.
  by rewrite lookup_insert_eq, Hin.
Qed.

Lemma Entity_hasComponent_spec T this w :
  Entity_hasComponent T this w = Undefined NoConversion.
Proof. reflexivity. Qed.

Lemma in_bounds_range i :
  in_bounds i = true → (0 ≤ i < maxComponents)%Z.
Proof. unfold in_bounds. intros H. by apply bool_decide_eq_true in H. Qed.

Lemma in_bounds_slot (E : Entity) i :
  Entity_wf E → in_bounds i = true →
  (Z.to_nat i < length (componentArray E))%nat.
Proof.
  intros Hwf Hin. apply in_bounds_range in Hin. rewrite Hwf. lia.
Qed.

Lemma testbit_set b i : (0 ≤ i)%Z → Z.testbit (Z.lor b (Z.shiftl 1 i)) i = true.
Proof.
  intros Hi. rewrite Z.lor_spec, Z.shiftl_spec by done.
  rewrite Z.sub_diag. simpl. apply orb_true_r.
Qed.

Lemma testbit_set_other b i j :
  (0 ≤ i)%Z → (0 ≤ j)%Z → i ≠ j →
  Z.testbit (Z.lor b (Z.shiftl 1 i)) j = Z.testbit b j.
Proof.
  intros Hi Hj Hne. rewrite Z.lor_spec, Z.shiftl_spec by done.
  destruct (decide (j < i)%Z).
  - rewrite (Z.testbit_neg_r 1 (j - i)) by lia. apply orb_false_r.
  - rewrite (Z.bits_above_log2 1 (j - i)); [apply orb_false_r|lia|].
    simpl. lia.
Qed.

Lemma Entity_new_wf : Entity_wf Entity_new.
Proof. reflexivity. Qed.

(** C1. After [addComponent<T>] on a live entity, with the identity of
    [T] inside the table, the component it constructed is a new object of
    kind [T] wired to the entity, the bitset records [T] and
    [getComponent<T>] returns that very object and changes nothing;
    [hasComponent<T>], as written, yields no value: it does not answer
    [true]. *)
Theorem addComponent_then_lookup T this w E :
  entity_store w !! this = Some E →
  Entity_wf E →
  in_bounds (fst (getComponentTypeID_T T (registry w))) = true →
  ∃ c w1 E1,
    Entity_addComponent T this w = Ok (c, w1) ∧
    component_store w !! c = None ∧
    component_store w1 !! c = Some (mkComponent T this) ∧
    entity_store w1 !! this = Some E1 ∧
    recorded E1 (fst (getComponentTypeID_T T (registry w1))) = true ∧
    Entity_getComponent T this w1 = Ok (c, w1) ∧
    Entity_hasComponent T this w1 = Undefined NoConversion ∧
    Entity_hasComponent T this w1 ≠ Ok (true, w1).
Proof.
  intros HE Hwf Hin.
  destruct (getComponentTypeID_T T (registry w)) as [i r'] eqn:Hid.
  simpl in Hin.
  pose proof (Entity_addComponent_spec _ _ _ _ _ _ HE Hid Hin) as Hadd.
  simpl in Hadd.
  set (c := fresh (dom (component_store w))) in *.
  set (E1 := mkEntity (active E) (components E ++ [c])
               (<[Z.to_nat i := Some c]> (componentArray E))
               (Z.lor (componentBitSet E) (Z.shiftl 1 i))) in *.
  set (w1 := mkWorld r' (<[c := mkComponent T this]> (component_store w))
               (<[this := E1]> (entity_store w))
               (calls w ++ [ComponentInit c])) in *.
  exists c, w1, E1. split; [exact Hadd|].
  pose proof (getComponentTypeID_T_again _ _ _ _ Hid) as Hid'.
  assert (entity_store w1 !! this = Some E1) as HE1
    by apply lookup_insert_eq.
  assert (componentArray E1 !! Z.to_nat i = Some (Some c)) as Hslot.
  { apply list_lookup_insert_eq. by apply in_bounds_slot. }
  split; [apply not_elem_of_dom, is_fresh|].
  split; [apply lookup_insert_eq|].
  split; [exact HE1|].
  split.
  { simpl. rewrite Hid'. apply testbit_set.
    by apply in_bounds_range in Hin as [? _]. }
  split; [|split; [reflexivity|discriminate]].
  by rewrite (Entity_getComponent_spec T this w1 E1 i r' (Some c)
                HE1 Hid' Hin Hslot).
Qed.

Lemma addComponent_then_lookup_witness :
  entity_store world_one !! 0%nat = Some Entity_new ∧
  Entity_wf Entity_new ∧
  in_bounds (fst (getComponentTypeID_T 7 (registry world_one))) = true ∧
  ∃ c w1,
    Entity_addComponent 7 0 world_one = Ok (c, w1) ∧
    Entity_getComponent 7 0 w1 = Ok (c, w1) ∧
    Entity_hasComponent 7 0 w1 = Undefined NoConversion.
Proof.
  split; [reflexivity|]. split; [reflexivity|]. split; [reflexivity|].
  destruct (addComponent_then_lookup 7 0 world_one Entity_new)
    as (c & w1 & E1 & Hadd & _ & _ & _ & _ & Hget & Hhas & _);
    [reflexivity..|].
  by exists c, w1.
Defined.

(** C2. Two entities are created and a component of kind [T] is
    attached to the first only. The bitset of the first then records
    [T] and the bitset of the second does not, yet [hasComponent<T>], as
    written, has one and the same outcome on both: it yields no value,
    so it answers neither [true] on the first nor [false] on the
    second. *)
Theorem hasComponent_reads_no_bitset T m w :
  in_bounds (fst (getComponentTypeID_T T (registry w))) = true →
  ∃ e1 e2 w' E1 E2,
    attach_to_first T m w = Ok ((e1, e2), w') ∧
    e1 ≠ e2 ∧
    entity_store w' !! e1 = Some E1 ∧
    entity_store w' !! e2 = Some E2 ∧
    recorded E1 (fst (getComponentTypeID_T T (registry w'))) = true ∧
    recorded E2 (fst (getComponentTypeID_T T (registry w'))) = false ∧
    Entity_hasComponent T e1 w' = Entity_hasComponent T e2 w' ∧
    Entity_hasComponent T e2 w' = Undefined NoConversion ∧
    (∀ b w'', Entity_hasComponent T e1 w' ≠ Ok (b, w'')) ∧
    (∀ b w'', Entity_hasComponent T e2 w' ≠ Ok (b, w'')).
Proof.
  intros Hin.
  destruct (getComponentTypeID_T T (registry w)) as [i r'] eqn:Hid.
  simpl in Hin.
  set (e1 := fresh (dom (entity_store w))).
  set (s1 := <[e1 := Entity_new]> (entity_store w)).
  set (e2 := fresh (dom s1)).
  set (w2 := mkWorld (registry w) (component_store w)
               (<[e2 := Entity_new]> s1) (calls w)).
  assert (e1 ≠ e2) as Hne.
  { intros Heq. apply (is_fresh (dom s1)). fold e2. rewrite <- Heq.
    apply elem_of_dom. unfold s1. rewrite lookup_insert_eq. eauto. }
  assert (entity_store w2 !! e1 = Some Entity_new) as H1.
  { simpl. rewrite lookup_insert_ne by done. apply lookup_insert_eq. }
  pose proof (Entity_addComponent_spec T e1 w2 Entity_new i r' H1 Hid Hin)
    as Hadd.
  simpl in Hadd.
  eexists e1, e2, _, _, Entity_new.
  split.
  { unfold attach_to_first, Manager_addEntity, new_Entity, ret, bind.
    simpl. fold e1. fold s1. fold e2. fold w2. by rewrite Hadd. }
  split; [done|].
  split; [simpl; apply lookup_insert_eq|].
  split.
  { simpl. rewrite lookup_insert_ne by done. apply lookup_insert_eq. }
  cbn [registry]. rewrite (getComponentTypeID_T_again _ _ _ _ Hid).
  split.
  { apply testbit_set. by apply in_bounds_range in Hin as [? _]. }
  split; [apply Z.testbit_0_l|].
  split; [reflexivity|]. split; [reflexivity|].
  split; discriminate.
Qed.

Lemma hasComponent_reads_no_bitset_witness :
  in_bounds (fst (getComponentTypeID_T 0 (registry World_start))) = true ∧
  ∃ e1 e2 w',
    attach_to_first 0 Manager_new World_start = Ok ((e1, e2), w') ∧
    Entity_hasComponent 0 e2 w' = Undefined NoConversion.
Proof.
  split; [reflexivity|].
  destruct (hasComponent_reads_no_bitset 0 Manager_new World_start)
    as (e1 & e2 & w' & E1 & E2 & Hrun & _ & _ & _ & _ & _ & _ & Hhas & _);
    [reflexivity|].
  by exists e1, e2, w'.
Defined.

Lemma bind_Ok_inv {A B} (m : M A) (k : A → M B) w r :
  bind m k w = Ok r → ∃ a w1, m w = Ok (a, w1) ∧ k a w1 = Ok r.
Proof.
  unfold bind. destruct (m w) as [[a w1]|f]; [|done]. eauto.
Qed.

Lemma read_Ok_inv this w E w' :
  read this w = Ok (E, w') → entity_store w !! this = Some E ∧ w' = w.
Proof.
  unfold read. destruct (entity_store w !! this); [|done].
  by intros [= -> ->].
Qed.

(** C7. On a live entity, [update()] calls [update()] on every owned
    component and [draw()] calls [draw()] on every owned component, in
    the order of the vector [components], to which [addComponent]
    appends at the end; neither looks at the flag, so the same calls
    are made after [destroy()]. *)
Theorem Entity_update_draw_insertion_order this w E :
  entity_store w !! this = Some E →
  Entity_update this w =
    Ok (tt, log w (EntityUpdate this :: map ComponentUpdate (components E))) ∧
  Entity_draw this w =
    Ok (tt, log w (EntityDraw this :: map ComponentDraw (components E))) ∧
  (∃ w1,
     Entity_destroy this w = Ok (tt, w1) ∧
     Entity_isActive this w1 = Ok (false, w1) ∧
     Entity_update this w1 =
       Ok (tt, log w1 (EntityUpdate this ::
                       map ComponentUpdate (components E))) ∧
     Entity_draw this w1 =
       Ok (tt, log w1 (EntityDraw this ::
                       map ComponentDraw (components E)))) ∧
  (∀ T, in_bounds (fst (getComponentTypeID_T T (registry w))) = true →
     ∃ c w1 E1,
       Entity_addComponent T this w = Ok (c, w1) ∧
       entity_store w1 !! this = Some E1 ∧
       components E1 = components E ++ [c]).
Proof.
  intros HE.
  split; [by apply Entity_update_spec|].
  split; [by apply Entity_draw_spec|].
  split.
  - eexists. split; [by apply Entity_destroy_spec|].
    set (E0 := mkEntity false (components E) (componentArray E)
                 (componentBitSet E)).
    set (w1 := mkWorld _ _ _ _).
    assert (entity_store w1 !! this = Some E0) as HE0
      by apply lookup_insert_eq.
    split; [by rewrite (Entity_isActive_spec _ _ _ HE0)|].
    split.
    + by rewrite (Entity_update_spec _ _ _ HE0).
    + by rewrite (Entity_draw_spec _ _ _ HE0).
  - intros T Hin.
    destruct (getComponentTypeID_T T (registry w)) as [i r'] eqn:Hid.
    eexists _, _, _.
    split; [by apply (Entity_addComponent_spec _ _ _ _ _ _ HE Hid Hin)|].
    split; [apply lookup_insert_eq|done].
Qed.

Lemma Entity_update_draw_insertion_order_witness :
  entity_store world_XYZ !! 0%nat = Some entity_XYZ ∧
  Entity_update 0 world_XYZ =
    Ok (tt, log world_XYZ [EntityUpdate 0; ComponentUpdate 0;
                           ComponentUpdate 1; ComponentUpdate 2]).
Proof.
  assert (entity_store world_XYZ !! 0%nat = Some entity_XYZ) as HE
    by reflexivity.
  split; [exact HE|].
  by destruct (Entity_update_draw_insertion_order 0 world_XYZ entity_XYZ HE)
    as [Hup _].
Defined.

(** ** The flag [active] *)

Lemma not_revived_same_store w w' :
  entity_store w' = entity_store w → not_revived w w'.
Proof. intros Heq e E' (E & HE & Hoff) HE'. rewrite Heq in HE'. congruence. Qed.

Lemma Entity_update_Ok_inv this w u w' :
  Entity_update this w = Ok (u, w') → entity_store w' = entity_store w.
Proof.
  intros H. destruct (entity_store w !! this) as [E|] eqn:HE.
  - rewrite (Entity_update_spec _ _ _ HE) in H. by injection H as <- <-.
  - unfold Entity_update, call, read, bind in H. simpl in H.
    by rewrite HE in H.
Qed.

Lemma Entity_draw_Ok_inv this w u w' :
  Entity_draw this w = Ok (u, w') → entity_store w' = entity_store w.
Proof.
  intros H. destruct (entity_store w !! this) as [E|] eqn:HE.
  - rewrite (Entity_draw_spec _ _ _ HE) in H. by injection H as <- <-.
  - unfold Entity_draw, call, read, bind in H. simpl in H.
    by rewrite HE in H.
Qed.

Lemma for_each_same_store (body : addr → M unit) l :
  (∀ e w u w', body e w = Ok (u, w') → entity_store w' = entity_store w) →
  ∀ w u w', for_each l body w = Ok (u, w') →
            entity_store w' = entity_store w.
Proof.
  intros Hbody. induction l as [|e l IH]; intros w u w' H; simpl in H.
  - by injection H as <- <-.
  - apply bind_Ok_inv in H as (u1 & w1 & H1 & H2).
    apply Hbody in H1. apply IH in H2. congruence.
Qed.

Lemma Entity_addComponent_Ok_inv T this w c w' :
  Entity_addComponent T this w = Ok (c, w') →
  ∃ E E', entity_store w !! this = Some E ∧
          entity_store w' = <[this := E']> (entity_store w) ∧
          active E' = active E.
Proof.
  intros H. destruct (entity_store w !! this) as [E|] eqn:HE.
  - destruct (getComponentTypeID_T T (registry w)) as [i r'] eqn:Hid.
    destruct (in_bounds i) eqn:Hin.
    + rewrite (Entity_addComponent_spec _ _ _ _ _ _ HE Hid Hin) in H.
      injection H as <- <-. by eexists _, _.
    + by rewrite (Entity_addComponent_beyond _ _ _ _ _ _ HE Hid Hin) in H.
  - unfold Entity_addComponent, components_emplace_back, new_Component,
      read, bind in H. simpl in H. by rewrite HE in H.
Qed.

Lemma Entity_getComponent_Ok_inv T this w c w' :
  Entity_getComponent T this w = Ok (c, w') →
  entity_store w' = entity_store w.
Proof.
  unfold Entity_getComponent, typeID_of, read, ret, undefined, bind.
  destruct (getComponentTypeID_T T (registry w)) as [i r']. simpl.
  destruct (entity_store w !! this) as [E|]; [|done].
  destruct (in_bounds i); [|done].
  destruct (componentArray E !! Z.to_nat i) as [[d|]|]; [|done|done].
  by intros [= <- <-].
Qed.

Lemma remove_if_not_active_sub l : ∀ w kept w',
  remove_if_not_active l w = Ok (kept, w') →
  entity_store w' ⊆ entity_store w.
Proof.
  induction l as [|e l IH]; intros w kept w' H; simpl in H.
  - by injection H as <- <-.
  - apply bind_Ok_inv in H as (a & w1 & H1 & H2).
    unfold Entity_isActive in H1.
    apply bind_Ok_inv in H1 as (E & w0 & Hr & Hret).
    apply read_Ok_inv in Hr as [HE ->]. injection Hret as <- <-.
    destruct (active E).
    + apply bind_Ok_inv in H2 as (k & w2 & H2 & Hret).
      injection Hret as <- <-. by eapply IH.
    + apply bind_Ok_inv in H2 as (u & w2 & Hdel & H2).
      unfold delete_Entity in Hdel.
      apply bind_Ok_inv in Hdel as (E0 & w0 & Hr & Hdel).
      apply read_Ok_inv in Hr as [_ ->]. injection Hdel as <- <-.
      apply IH in H2. simpl in H2.
      etrans; [exact H2|apply delete_subseteq].
Qed.

(** ** The manager *)

Lemma filter_ext_elem {A} (P Q : A → Prop)
    `{∀ x, Decision (P x)} `{∀ x, Decision (Q x)} (l : list A) :
  (∀ x, x ∈ l → (P x ↔ Q x)) → filter P l = filter Q l.
Proof.
  induction l as [|x l IH]; intros Hext; [done|].
  rewrite !filter_cons.
  rewrite IH by (intros y Hy; apply Hext; by right).
  destruct (decide (P x)) as [HP|HP], (decide (Q x)) as [HQ|HQ];
    try done; exfalso; apply (Hext x (list_elem_of_here _ _)) in HP || 
    apply (Hext x (list_elem_of_here _ _)) in HQ; done.
Qed.

Lemma delete_Entity_spec e w E :
  entity_store w !! e = Some E →
  delete_Entity e w =
    Ok (tt, mkWorld (registry w)
              (foldr delete (component_store w) (components E))
              (delete e (entity_store w)) (calls w)).
Proof. intros HE. unfold delete_Entity, bind, read. by rewrite HE. Qed.

Lemma remove_if_not_active_spec l : ∀ w,
  NoDup l →
  (∀ e, e ∈ l → is_Some (entity_store w !! e)) →
  ∃ w',
    remove_if_not_active l w = Ok (filter (λ e, is_active w e) l, w') ∧
    registry w' = registry w ∧
    calls w' = calls w ∧
    (∀ e, e ∈ l → is_active w e = false → entity_store w' !! e = None) ∧
    (∀ e, (e ∈ l → is_active w e = true) →
          entity_store w' !! e = entity_store w !! e) ∧
    (∀ e c, e ∈ l → is_active w e = false → c ∈ components_of w e →
            component_store w' !! c = None) ∧
    (∀ c, (∀ e, e ∈ l → is_active w e = false → c ∉ components_of w e) →
          component_store w' !! c = component_store w !! c) ∧
    (∀ c, component_store w !! c = None → component_store w' !! c = None).
Proof.
  induction l as [|e l IH]; intros w Hnd Hlive.
  - exists w. simpl. unfold ret. repeat split; try done.
    + intros e He. by apply elem_of_nil in He.
    + intros e c He. by apply elem_of_nil in He.
  - apply NoDup_cons in Hnd as [Hnot Hnd].
    destruct (Hlive e) as [E HE]; [by left|].
    assert (is_active w e = active E) as Hflag
      by (unfold is_active; by rewrite HE).
    simpl. unfold bind at 1. rewrite (Entity_isActive_spec _ _ _ HE).
    destruct (active E) eqn:Hact.
    + destruct (IH w Hnd) as (w' & Hrun & Hreg & Hcalls & Hgone & Hkept
                              & Hcgone & Hckept & Hmono).
      { intros x Hx. apply Hlive. by right. }
      exists w'. unfold bind. rewrite Hrun. unfold ret.
      rewrite filter_cons_True by (by rewrite Hflag).
      split; [done|]. split; [done|]. split; [done|].
      split; [|split; [|split; [|split]]].
      * intros x Hx Hoff. apply elem_of_cons in Hx as [->|Hx]; [congruence|].
        by apply Hgone.
      * intros x Hx. apply Hkept. intros Hin. apply Hx. by right.
      * intros x c Hx Hoff Hc.
        apply elem_of_cons in Hx as [->|Hx]; [congruence|].
        by eapply Hcgone.
      * intros c Hc. apply Hckept. intros x Hx. apply Hc. by right.
      * done.
    + unfold bind at 1. rewrite (delete_Entity_spec _ _ _ HE).
      set (w1 := mkWorld _ _ _ _).
      assert (∀ x, x ∈ l → entity_store w1 !! x = entity_store w !! x)
        as Hsame.
      { intros x Hx. simpl. apply lookup_delete_ne. by intros ->. }
      assert (∀ x, x ∈ l → is_active w1 x = is_active w x) as Hsamef.
      { intros x Hx. unfold is_active. by rewrite Hsame. }
      assert (∀ x, x ∈ l → components_of w1 x = components_of w x) as Hsamec.
      { intros x Hx. unfold components_of. by rewrite Hsame. }
      destruct (IH w1 Hnd) as (w' & Hrun & Hreg & Hcalls & Hgone & Hkept
                               & Hcgone & Hckept & Hmono).
      { intros x Hx. rewrite Hsame by done. apply Hlive. by right. }
      exists w'. rewrite Hrun.
      rewrite filter_cons_False by (rewrite Hflag; by intros []).
      split.
      { do 2 f_equal. apply filter_ext_elem. intros x Hx.
        by rewrite Hsamef. }
      split; [done|]. split; [done|].
      split; [|split; [|split; [|split]]].
      * intros x Hx Hoff. apply elem_of_cons in Hx as [->|Hx].
        -- rewrite Hkept by done. simpl. apply lookup_delete_eq.
        -- apply Hgone; [done|]. by rewrite Hsamef.
      * intros x Hx.
        assert (x ≠ e) as Hne.
        { intros ->. rewrite Hflag in Hx. by specialize (Hx (list_elem_of_here _ _)). }
        rewrite Hkept.
        -- simpl. by apply lookup_delete_ne.
        -- intros Hin. rewrite Hsamef by done. apply Hx. by right.
      * intros x c Hx Hoff Hc. apply elem_of_cons in Hx as [->|Hx].
        -- apply Hmono. simpl. apply lookup_foldr_delete.
           unfold components_of in Hc. by rewrite HE in Hc.
        -- apply (Hcgone x); [done|by rewrite Hsamef|by rewrite Hsamec].
      * intros c Hc. rewrite Hckept.
        -- simpl. apply lookup_foldr_delete_not_elem_of.
           specialize (Hc e (list_elem_of_here _ _) Hflag).
           unfold components_of in Hc. by rewrite HE in Hc.
        -- intros x Hx Hoff. rewrite Hsamec by done.
           apply Hc; [by right|]. by rewrite <- Hsamef.
      * intros c Hc. apply Hmono. simpl.
        destruct (decide (c ∈ components E)).
        -- by apply lookup_foldr_delete.
        -- by rewrite lookup_foldr_delete_not_elem_of.
Qed.

Lemma remove_if_not_active_all_active l : ∀ w,
  (∀ e, e ∈ l → is_active w e = true) →
  remove_if_not_active l w = Ok (l, w).
Proof.
  induction l as [|e l IH]; intros w Hall; [done|].
  pose proof (Hall e (list_elem_of_here _ _)) as He. unfold is_active in He.
  destruct (entity_store w !! e) as [E|] eqn:HE; [|done].
  simpl. unfold bind at 1. rewrite (Entity_isActive_spec _ _ _ HE), He.
  unfold bind. rewrite IH; [done|]. intros x Hx. apply Hall. by right.
Qed.

Lemma Manager_refresh_spec m w :
  Manager_wf m w →
  ∃ w',
    Manager_refresh m w =
      Ok (mkManager (filter (λ e, is_active w e) (entities m)), w') ∧
    (∀ e, e ∈ entities m → is_active w e = false →
          entity_store w' !! e = None) ∧
    (∀ e, (e ∈ entities m → is_active w e = true) →
          entity_store w' !! e = entity_store w !! e) ∧
    (∀ e c, e ∈ entities m → is_active w e = false → c ∈ components_of w e →
            component_store w' !! c = None).
Proof.
  intros [Hnd Hlive].
  destruct (remove_if_not_active_spec _ w Hnd Hlive)
    as (w' & Hrun & _ & _ & Hgone & Hkept & Hcgone & _).
  exists w'. unfold Manager_refresh, bind, ret. rewrite Hrun. eauto.
Qed.

(** C3. On a manager whose owning pointers are distinct and live,
    [refresh()] returns, and the entities it keeps are those of the
    owned sequence whose flag is set, in their relative order: an
    entity is kept exactly when it was owned and active. The kept
    entities are untouched; a removed entity is gone from the store and
    so is every component it owned. *)
Theorem Manager_refresh_removes_inactive m w :
  Manager_wf m w →
  ∃ m' w',
    Manager_refresh m w = Ok (m', w') ∧
    entities m' = filter (λ e, is_active w e) (entities m) ∧
    (∀ e, e ∈ entities m' ↔ e ∈ entities m ∧ is_active w e = true) ∧
    (∀ e, e ∈ entities m' → entity_store w' !! e = entity_store w !! e) ∧
    (∀ e, e ∈ entities m → is_active w e = false →
          (e ∉ entities m') ∧
          entity_store w' !! e = None ∧
          ∀ c, c ∈ components_of w e → component_store w' !! c = None).
Proof.
  intros Hwf.
  destruct (Manager_refresh_spec m w Hwf) as (w' & Hrun & Hgone & Hkept & Hc).
  eexists _, w'. split; [exact Hrun|]. simpl. split; [done|].
  assert (∀ e, e ∈ filter (λ e, is_active w e) (entities m) ↔
               e ∈ entities m ∧ is_active w e = true) as Hiff.
  { intros e. rewrite list_elem_of_filter.
    destruct (is_active w e); simpl; [tauto|].
    split; [by intros []|by intros []]. }
  split; [exact Hiff|]. split.
  - intros e He. apply Hiff in He as [_ He]. by apply Hkept.
  - intros e He Hoff. split; [|split].
    + rewrite Hiff. intros [_ Hon]. congruence.
    + by apply Hgone.
    + intros c Hc'. by eapply Hc.
Qed.

(** C10. On a manager whose owning pointers are distinct and live, after
    one [refresh()] every entity still owned answers [isActive()] with
    [true], and a second [refresh()] returns the same manager and the
    same world: two refreshes in a row do what one does. *)
Theorem Manager_refresh_idempotent m w :
  Manager_wf m w →
  ∃ m' w',
    Manager_refresh m w = Ok (m', w') ∧
    (∀ e, e ∈ entities m' → Entity_isActive e w' = Ok (true, w')) ∧
    Manager_refresh m' w' = Ok (m', w') ∧
    (m1 <- Manager_refresh m ;; Manager_refresh m1) w = Manager_refresh m w.
Proof.
  intros Hwf.
  destruct (Manager_refresh_spec m w Hwf) as (w' & Hrun & _ & Hkept & _).
  eexists _, w'. split; [exact Hrun|]. simpl.
  assert (∀ e, e ∈ filter (λ e, is_active w e) (entities m) →
               is_active w' e = true) as Hon.
  { intros e He. apply list_elem_of_filter in He as [Hact He].
    unfold is_active in *. rewrite Hkept; [by apply Is_true_eq_true|].
    intros _. by apply Is_true_eq_true. }
  assert (Manager_refresh
            (mkManager (filter (λ e, is_active w e) (entities m))) w' =
          Ok (mkManager (filter (λ e, is_active w e) (entities m)), w'))
    as Hagain.
  { unfold Manager_refresh, bind, ret. simpl.
    by rewrite (remove_if_not_active_all_active _ _ Hon). }
  split; [|split; [exact Hagain|]].
  - intros e He. specialize (Hon e He). unfold is_active in Hon.
    destruct (entity_store w' !! e) as [E|] eqn:HE; [|done].
    by rewrite (Entity_isActive_spec _ _ _ HE), Hon.
  - unfold bind at 1. rewrite Hrun. exact Hagain.
Qed.

Lemma Entity_destroy_Ok_inv this w u w' :
  Entity_destroy this w = Ok (u, w') →
  ∃ E, entity_store w !! this = Some E ∧
       entity_store w' =
         <[this := mkEntity false (components E) (componentArray E)
                            (componentBitSet E)]> (entity_store w).
Proof.
  intros H. destruct (entity_store w !! this) as [E|] eqn:HE.
  - rewrite (Entity_destroy_spec _ _ _ HE) in H. injection H as <- <-.
    by exists E.
  - unfold Entity_destroy, read, bind in H. by rewrite HE in H.
Qed.

Ltac inv_bind H a w1 H1 :=
  apply bind_Ok_inv in H as (a & w1 & H1 & H); cbv beta in H.

Ltac inv_ret H := injection H as <- <-.

Lemma perform_store op m w m' w' :
  perform op m w = Ok (m', w') →
  (op = Op_Manager_refresh ∧ entity_store w' ⊆ entity_store w) ∨
  (op ≠ Op_Manager_refresh ∧
   store_grows (entity_store w) (entity_store w')).
Proof.
  destruct op as [e|e|e|e|T e|T e|T e| | | | ]; simpl; intros H;
    [right; split; [done|] ..|left; split; [done|]|right; split; [done|]].
  - inv_bind H u w1 H1. inv_ret H.
    apply grows_same. by eapply Entity_update_Ok_inv.
  - inv_bind H u w1 H1. inv_ret H.
    apply grows_same. by eapply Entity_draw_Ok_inv.
  - inv_bind H u w1 H1. inv_ret H. inv_bind H1 E w0 Hr. inv_ret H1.
    apply read_Ok_inv in Hr as [_ ->]. by apply grows_same.
  - inv_bind H u w1 H1. inv_ret H.
    apply Entity_destroy_Ok_inv in H1 as (E & HE & Hst).
    eapply grows_in_place; [exact HE| |exact Hst]. done.
  - inv_bind H u w1 H1. done.
  - inv_bind H c w1 H1. inv_ret H.
    apply Entity_addComponent_Ok_inv in H1 as (E & E1 & HE & Hst & Hflag).
    eapply grows_in_place; [exact HE| |exact Hst]. congruence.
  - inv_bind H c w1 H1. inv_ret H.
    apply grows_same. by eapply Entity_getComponent_Ok_inv.
  - inv_bind H u w1 H1. inv_ret H. apply grows_same.
    eapply for_each_same_store; [|exact H1]. apply Entity_update_Ok_inv.
  - inv_bind H u w1 H1. inv_ret H. apply grows_same.
    eapply for_each_same_store; [|exact H1]. apply Entity_draw_Ok_inv.
  - inv_bind H kept w1 H1. inv_ret H.
    by eapply remove_if_not_active_sub.
  - inv_bind H em w1 H1. inv_ret H. inv_bind H1 e w0 Hnew. inv_ret H1.
    injection Hnew as <- <-. by apply grows_new.
Qed.

Lemma store_grows_live s s' e :
  store_grows s s' → is_Some (s !! e) → is_Some (s' !! e).
Proof.
  intros [->|this E E1 HE _ ->| ->] He; [done| |];
    rewrite lookup_insert_is_Some.
  - destruct (decide (this = e)); eauto.
  - destruct (decide (fresh (dom s) = e)); eauto.
Qed.

Lemma store_grows_inactive s s' e E :
  store_grows s s' → s !! e = Some E → active E = false →
  ∃ E', s' !! e = Some E' ∧ active E' = false.
Proof.
  intros [->|this E0 E1 HE0 Hflag ->| ->] He Hoff; [eauto| |].
  - destruct (decide (this = e)) as [->|Hne].
    + exists E1. rewrite lookup_insert_eq. split; [done|].
      apply Hflag. congruence.
    + exists E. by rewrite lookup_insert_ne.
  - exists E. rewrite lookup_insert_ne; [done|].
    intros <-. apply (is_fresh (dom s)). apply elem_of_dom. eauto.
Qed.

Lemma perform_not_revived op m w m' w' :
  perform op m w = Ok (m', w') → not_revived w w'.
Proof.
  intros H e E' (E & HE & Hoff) HE'.
  destruct (perform_store _ _ _ _ _ H) as [[_ Hsub]|[_ Hgrows]].
  - eapply lookup_weaken in HE'; [|exact Hsub]. congruence.
  - destruct (store_grows_inactive _ _ _ _ Hgrows HE Hoff) as (E1 & HE1 & ?).
    congruence.
Qed.

Lemma perform_all_inactive ops : ∀ m w m' w' e,
  Op_Manager_refresh ∉ ops →
  perform_all ops m w = Ok (m', w') →
  inactive_at w e → inactive_at w' e.
Proof.
  induction ops as [|op ops IH]; intros m w m' w' e Hno H Hoff; simpl in H.
  - by inv_ret H.
  - inv_bind H m1 w1 H1.
    apply not_elem_of_cons in Hno as [Hop Hno].
    apply (IH _ _ _ _ e Hno H).
    destruct (perform_store _ _ _ _ _ H1) as [[? _]|[_ Hgrows]]; [congruence|].
    destruct Hoff as (E & HE & Hflag).
    by apply (store_grows_inactive _ _ _ _ Hgrows HE Hflag).
Qed.

(** C6. A new entity has its flag set, and [addEntity] hands out an
    entity that answers [isActive()] with [true]. On a live entity
    [isActive()] returns the flag and leaves the world as it is;
    [destroy()] clears the flag and touches nothing else; a second
    [destroy()] changes nothing at all. No operation of the interface,
    on any entity or on the manager, sets again the flag of an entity
    that is live and inactive; through any sequence of operations
    without [refresh()] such an entity stays live and inactive. *)
Theorem active_flag_lifecycle :
  active Entity_new = true ∧
  (∀ m w, ∃ e m' w',
     Manager_addEntity m w = Ok ((e, m'), w') ∧
     Entity_isActive e w' = Ok (true, w')) ∧
  (∀ this w E,
     entity_store w !! this = Some E →
     Entity_isActive this w = Ok (active E, w) ∧
     ∃ w1,
       Entity_destroy this w = Ok (tt, w1) ∧
       Entity_isActive this w1 = Ok (false, w1) ∧
       Entity_destroy this w1 = Ok (tt, w1) ∧
       registry w1 = registry w ∧
       component_store w1 = component_store w ∧
       calls w1 = calls w ∧
       entity_store w1 =
         <[this := mkEntity false (components E) (componentArray E)
                            (componentBitSet E)]> (entity_store w)) ∧
  (∀ op m w m' w' e E',
     perform op m w = Ok (m', w') →
     inactive_at w e →
     entity_store w' !! e = Some E' →
     active E' = false) ∧
  (∀ ops m w m' w' e,
     Op_Manager_refresh ∉ ops →
     perform_all ops m w = Ok (m', w') →
     inactive_at w e →
     ∃ E', entity_store w' !! e = Some E' ∧ active E' = false).
Proof.
  split; [reflexivity|]. split; [|split; [|split]].
  - intros m w. eexists _, _, _. split; [reflexivity|].
    rewrite (Entity_isActive_spec _ _ Entity_new); [reflexivity|].
    apply lookup_insert_eq.
  - intros this w E HE. split; [by apply Entity_isActive_spec|].
    eexists. split; [by apply Entity_destroy_spec|].
    set (E0 := mkEntity false (components E) (componentArray E)
                 (componentBitSet E)).
    set (w1 := mkWorld _ _ _ _).
    assert (entity_store w1 !! this = Some E0) as HE0
      by apply lookup_insert_eq.
    split; [by rewrite (Entity_isActive_spec _ _ _ HE0)|].
    split; [|done].
    rewrite (Entity_destroy_spec _ _ _ HE0). subst w1. simpl.
    by rewrite insert_insert_eq.
  - intros op m w m' w' e E' Hop Hoff HE'.
    by eapply (perform_not_revived op m w m' w' Hop).
  - intros ops m w m' w' e Hno Hrun Hoff.
    by apply (perform_all_inactive ops m w m' w' e Hno Hrun).
Qed.

Lemma for_each_entity_calls (body : addr → M unit)
    (trace : World → addr → list Event) l :
  (∀ e w, is_Some (entity_store w !! e) →
          body e w = Ok (tt, log w (trace w e))) →
  (∀ e w evs, trace (log w evs) e = trace w e) →
  ∀ w, (∀ e, e ∈ l → is_Some (entity_store w !! e)) →
       for_each l body w = Ok (tt, log w (concat (map (trace w) l))).
Proof.
  intros Hbody Htrace. induction l as [|e l IH]; intros w Hlive; simpl.
  - unfold ret. by rewrite log_nil.
  - unfold bind. rewrite Hbody by (apply Hlive; by left).
    rewrite IH by (intros x Hx; simpl; apply Hlive; by right).
    rewrite log_log. do 3 f_equal. simpl. do 2 f_equal.
    apply map_ext. intros x. apply Htrace.
Qed.

Lemma Manager_update_spec m w :
  (∀ e, e ∈ entities m → is_Some (entity_store w !! e)) →
  Manager_update m w =
    Ok (tt, log w (concat (map (update_calls w) (entities m)))).
Proof.
  apply for_each_entity_calls; [|done].
  intros e w0 [E HE]. rewrite (Entity_update_spec _ _ _ HE).
  unfold update_calls, components_of. by rewrite HE.
Qed.

Lemma Manager_draw_spec m w :
  (∀ e, e ∈ entities m → is_Some (entity_store w !! e)) →
  Manager_draw m w =
    Ok (tt, log w (concat (map (draw_calls w) (entities m)))).
Proof.
  apply for_each_entity_calls; [|done].
  intros e w0 [E HE]. rewrite (Entity_draw_spec _ _ _ HE).
  unfold draw_calls, components_of. by rewrite HE.
Qed.

Lemma entity_updates_ComponentUpdate cs :
  entity_updates (map ComponentUpdate cs) = [].
Proof. unfold entity_updates. by induction cs. Qed.

Lemma entity_draws_ComponentDraw cs :
  entity_draws (map ComponentDraw cs) = [].
Proof. unfold entity_draws. by induction cs. Qed.

Lemma entity_updates_update_calls w l :
  entity_updates (concat (map (update_calls w) l)) = l.
Proof.
  induction l as [|e l IH]; [done|].
  change (entity_updates
            (EntityUpdate e :: map ComponentUpdate (components_of w e) ++
             concat (map (update_calls w) l)) = e :: l).
  pose proof (entity_updates_ComponentUpdate (components_of w e)) as Hcs.
  unfold entity_updates in *. simpl. by rewrite omap_app, IH, Hcs.
Qed.

Lemma entity_draws_draw_calls w l :
  entity_draws (concat (map (draw_calls w) l)) = l.
Proof.
  induction l as [|e l IH]; [done|].
  change (entity_draws
            (EntityDraw e :: map ComponentDraw (components_of w e) ++
             concat (map (draw_calls w) l)) = e :: l).
  pose proof (entity_draws_ComponentDraw (components_of w e)) as Hcs.
  unfold entity_draws in *. simpl. by rewrite omap_app, IH, Hcs.
Qed.

Lemma update_calls_are_updates w l :
  Forall (λ ev, is_update ev = true) (concat (map (update_calls w) l)).
Proof.
  apply Forall_concat, Forall_map, Forall_forall. intros e _.
  unfold update_calls. constructor; [done|].
  apply Forall_map, Forall_forall. by intros c _.
Qed.

Lemma draw_calls_are_draws w l :
  Forall (λ ev, is_draw ev = true) (concat (map (draw_calls w) l)).
Proof.
  apply Forall_concat, Forall_map, Forall_forall. intros e _.
  unfold draw_calls. constructor; [done|].
  apply Forall_map, Forall_forall. by intros c _.
Qed.

Lemma update_is_not_draw ev : is_update ev = true → is_draw ev = false.
Proof. by destruct ev. Qed.

(** C8. On a manager whose entities are live, [update()] enters
    [update()] of every owned entity, in storage order and whatever its
    flag, and [draw()] does the same with [draw()] in a pass of its own.
    A tick logs the calls of the update pass followed by the calls of
    the draw pass: every update call of the tick comes before every draw
    call of the tick. *)
Theorem Manager_tick_two_phase m w :
  (∀ e, e ∈ entities m → is_Some (entity_store w !! e)) →
  Manager_update m w =
    Ok (tt, log w (concat (map (update_calls w) (entities m)))) ∧
  Manager_draw m w =
    Ok (tt, log w (concat (map (draw_calls w) (entities m)))) ∧
  entity_updates (concat (map (update_calls w) (entities m))) = entities m ∧
  entity_draws (concat (map (draw_calls w) (entities m))) = entities m ∧
  ∃ tick,
    Manager_tick m w = Ok (tt, log w tick) ∧
    tick = concat (map (update_calls w) (entities m)) ++
           concat (map (draw_calls w) (entities m)) ∧
    ∀ i j ev ev',
      tick !! i = Some ev → tick !! j = Some ev' →
      is_update ev = true → is_draw ev' = true → (i < j)%nat.
Proof.
  intros Hlive.
  pose proof (Manager_update_spec m w Hlive) as Hup.
  split; [exact Hup|]. split; [by apply Manager_draw_spec|].
  split; [apply entity_updates_update_calls|].
  split; [apply entity_draws_draw_calls|].
  eexists. split; [|split; [reflexivity|]].
  - unfold Manager_tick, bind. rewrite Hup.
    rewrite Manager_draw_spec by done. by rewrite log_log.
  - intros i j ev ev' Hi Hj Hev Hev'.
    pose proof (update_calls_are_updates w (entities m)) as Hups.
    pose proof (draw_calls_are_draws w (entities m)) as Hdraws.
    rewrite Forall_forall in Hups, Hdraws.
    assert (i < length (concat (map (update_calls w) (entities m))))%nat.
    { apply lookup_app_Some in Hi as [Hi|[_ Hi]].
      - by eapply lookup_lt_Some.
      - apply list_elem_of_lookup_2, Hdraws in Hi.
        apply update_is_not_draw in Hev. congruence. }
    assert (length (concat (map (update_calls w) (entities m))) ≤ j)%nat.
    { apply lookup_app_Some in Hj as [Hj|[Hj _]]; [|done].
      apply list_elem_of_lookup_2, Hups, update_is_not_draw in Hj.
      congruence. }
    lia.
Qed.

(** ** The capacity of the table *)

Lemma first_uses_from_app Ts Us : ∀ seen,
  first_uses_from seen (Ts ++ Us) =
    first_uses_from seen Ts ++
    first_uses_from (seen ++ first_uses_from seen Ts) Us.
Proof.
  induction Ts as [|T Ts IH]; intros seen; simpl.
  - by rewrite app_nil_r.
  - destruct (decide (T ∈ seen)); [apply IH|].
    rewrite IH. simpl. do 3 f_equal. by rewrite <- app_assoc.
Qed.

Lemma first_uses_snoc Ts T :
  first_uses (Ts ++ [T]) =
    first_uses Ts ++ (if decide (T ∈ first_uses Ts) then [] else [T]).
Proof.
  unfold first_uses. rewrite first_uses_from_app. simpl.
  by destruct (decide (T ∈ first_uses_from [] Ts)).
Qed.

Lemma requests_typeID Ts T :
  (Z.of_nat (length (first_uses (Ts ++ [T]))) ≤ size_t_modulus)%Z →
  ∃ n r',
    getComponentTypeID_T T (snd (requests Ts Registry_start))
      = (Z.of_nat n, r') ∧
    first_uses (Ts ++ [T]) !! n = Some T ∧
    (T ∉ Ts → n = length (first_uses Ts)).
Proof.
  intros Hlen. rewrite first_uses_snoc in Hlen |- *.
  destruct (requests_start Ts) as (ids & r & Hrun & Htr & _).
  { rewrite length_app in Hlen. lia. }
  rewrite Hrun. simpl.
  destruct (decide (T ∈ first_uses Ts)) as [Hin|Hnot].
  - apply list_elem_of_lookup_1 in Hin as Hn. destruct Hn as [n Hn].
    exists n, r. split; [exact (Registry_tracks_known _ _ _ _ Htr Hn)|].
    rewrite app_nil_r. split; [done|].
    intros HT. destruct HT. by apply first_uses_elem.
  - destruct (Registry_tracks_new _ _ _ Htr Hnot) as (r' & Hid & _).
    { rewrite length_app in Hlen. simpl in Hlen. lia. }
    exists (length (first_uses Ts)), r'. split; [done|]. split; [|done].
    rewrite lookup_app_r by lia. by rewrite Nat.sub_diag.
Qed.

(** C9. In a run from program start, let [T] be requested after the
    kinds [Ts]. If at most 32 distinct kinds have been registered once
    [T] is, the identity of [T] is inside the table and the bitset:
    [addComponent<T>] on a live entity returns and [getComponent<T>]
    does not index out of bounds. If 32 distinct kinds are registered
    and [T] is a 33rd, its identity is 32, and [addComponent<T>] and
    [getComponent<T>] index beyond the table. *)
Theorem maxComponents_bounds Ts T this w E :
  registry w = snd (requests Ts Registry_start) →
  entity_store w !! this = Some E →
  Entity_wf E →
  ((length (first_uses (Ts ++ [T])) ≤ 32)%nat →
     in_bounds (fst (getComponentTypeID_T T (registry w))) = true ∧
     (∃ c w', Entity_addComponent T this w = Ok (c, w')) ∧
     Entity_getComponent T this w ≠ Undefined OutOfBounds) ∧
  (length (first_uses Ts) = 32%nat → T ∉ Ts →
     fst (getComponentTypeID_T T (registry w)) = 32%Z ∧
     Entity_addComponent T this w = Undefined OutOfBounds ∧
     Entity_getComponent T this w = Undefined OutOfBounds).
Proof.
  intros Hreg HE Hwf. split.
  - intros Hle.
    destruct (requests_typeID Ts T) as (n & r' & Hid & Hn & _).
    { unfold size_t_modulus. lia. }
    rewrite <- Hreg in Hid. rewrite Hid. simpl.
    apply lookup_lt_Some in Hn.
    assert (in_bounds (Z.of_nat n) = true) as Hin.
    { apply bool_decide_eq_true. unfold maxComponents. lia. }
    split; [done|]. split.
    + eexists _, _. by apply (Entity_addComponent_spec _ _ _ _ _ _ HE Hid Hin).
    + destruct (lookup_lt_is_Some_2 (componentArray E) (Z.to_nat (Z.of_nat n)))
        as [slot Hslot]; [by apply in_bounds_slot|].
      rewrite (Entity_getComponent_spec _ _ _ _ _ _ _ HE Hid Hin Hslot).
      by destruct slot.
  - intros Hfull Hnew.
    destruct (requests_typeID Ts T) as (n & r' & Hid & _ & Hn).
    { rewrite first_uses_snoc, length_app, Hfull. unfold size_t_modulus.
      destruct (decide (T ∈ first_uses Ts)); simpl; lia. }
    rewrite (Hn Hnew), Hfull in Hid. rewrite <- Hreg in Hid.
    rewrite Hid. simpl. split; [done|].
    split.
    + by apply (Entity_addComponent_beyond _ _ _ _ _ _ HE Hid).
    + by apply (Entity_getComponent_beyond _ _ _ _ _ _ HE Hid).
Qed.

(** ** The bitset as the guard of the table *)

Lemma Entity_new_consistent : Entity_consistent Entity_new.
Proof.
  split; [apply Entity_new_wf|].
  intros i Hin. apply in_bounds_range in Hin. unfold recorded, Entity_new.
  cbn [componentBitSet componentArray]. rewrite Z.testbit_0_l.
  rewrite lookup_replicate_2 by lia. split; [done|]. by intros [c Hc].
Qed.

Lemma Entity_addComponent_consistent T this w E c w1 :
  entity_store w !! this = Some E →
  Entity_consistent E →
  Entity_addComponent T this w = Ok (c, w1) →
  ∃ E1, entity_store w1 !! this = Some E1 ∧ Entity_consistent E1.
Proof.
  intros HE [Hwf Hcons] Hadd.
  destruct (getComponentTypeID_T T (registry w)) as [i r'] eqn:Hid.
  destruct (in_bounds i) eqn:Hin;
    [|by rewrite (Entity_addComponent_beyond _ _ _ _ _ _ HE Hid Hin) in Hadd].
  rewrite (Entity_addComponent_spec _ _ _ _ _ _ HE Hid Hin) in Hadd.
  injection Hadd as <- <-. eexists. split; [apply lookup_insert_eq|].
  split; [unfold Entity_wf; simpl; by rewrite length_insert|].
  intros j Hj. unfold recorded. simpl.
  pose proof (in_bounds_range _ Hin) as [Hi0 _].
  pose proof (in_bounds_range _ Hj) as [Hj0 _].
  destruct (decide (i = j)) as [<-|Hne].
  - rewrite testbit_set by done. split; [|done]. intros _.
    eexists. apply list_lookup_insert_eq. by apply in_bounds_slot.
  - rewrite testbit_set_other by done.
    rewrite list_lookup_insert_ne by lia. apply Hcons, Hj.
Qed.

(** With the bit of [T] set in a consistent entity, [getComponent<T>]
    returns the component in the slot of [T]. *)
Lemma Entity_getComponent_recorded T this w E i r' :
  entity_store w !! this = Some E →
  Entity_consistent E →
  getComponentTypeID_T T (registry w) = (i, r') →
  in_bounds i = true →
  recorded E i = true →
  ∃ c, componentArray E !! Z.to_nat i = Some (Some c) ∧
       Entity_getComponent T this w =
         Ok (c, mkWorld r' (component_store w) (entity_store w) (calls w)).
Proof.
  intros HE [_ Hcons] Hid Hin Hbit.
  apply (Hcons i Hin) in Hbit as [c Hc]. exists c. split; [done|].
  by rewrite (Entity_getComponent_spec _ _ _ _ _ _ _ HE Hid Hin Hc).
Qed.

(** ** The sample population *)

Example build_ABC_world :
  build_ABC World_start = Ok (manager_ABC, world_ABC).
Proof. vm_compute. reflexivity. Qed.

Example build_XYZ_world : build_XYZ World_start = Ok (tt, world_XYZ).
Proof. vm_compute. reflexivity. Qed.

Example addEntity_world_one :
  Manager_addEntity Manager_new World_start =
    Ok ((0%nat, mkManager [0%nat]), world_one).
Proof. vm_compute. reflexivity. Qed.

Lemma manager_ABC_wf : Manager_wf manager_ABC world_ABC.
Proof.
  split.
  - simpl.
    repeat (apply NoDup_cons_2;
            [intros H;
             repeat (apply elem_of_cons in H as [H|H]; [discriminate H|]);
             by apply elem_of_nil in H|]).
    apply NoDup_nil_2.
  - intros e He. simpl in He.
    repeat (apply elem_of_cons in He as [->|He];
            [eexists; vm_compute; reflexivity|]).
    by apply elem_of_nil in He.
Defined.

Lemma Manager_refresh_removes_inactive_witness :
  Manager_wf manager_ABC world_ABC ∧
  ∃ w',
    Manager_refresh manager_ABC world_ABC = Ok (mkManager [0; 2], w') ∧
    entity_store w' !! 1%nat = None ∧
    component_store w' !! 0%nat = None.
Proof.
  split; [exact manager_ABC_wf|].
  destruct (Manager_refresh_removes_inactive manager_ABC world_ABC
              manager_ABC_wf)
    as ([kept] & w' & Hrun & Hkept & _ & _ & Hgone).
  simpl in Hkept. subst kept. exists w'. split; [exact Hrun|].
  destruct (Hgone 1%nat) as (_ & HB & Hc).
  - apply list_elem_of_further, list_elem_of_here.
  - reflexivity.
  - split; [exact HB|]. apply Hc.
    change (0%nat ∈ [0%nat]). apply list_elem_of_here.
Defined.

Lemma Manager_refresh_idempotent_witness :
  Manager_wf manager_ABC world_ABC ∧
  (m1 <- Manager_refresh manager_ABC ;; Manager_refresh m1) world_ABC =
    Manager_refresh manager_ABC world_ABC.
Proof.
  split; [exact manager_ABC_wf|].
  destruct (Manager_refresh_idempotent manager_ABC world_ABC manager_ABC_wf)
    as (m' & w' & _ & _ & _ & Htwice).
  exact Htwice.
Defined.

Lemma active_flag_lifecycle_witness :
  ∃ w1,
    Entity_destroy 0 world_ABC = Ok (tt, w1) ∧
    Entity_isActive 0 w1 = Ok (false, w1) ∧
    Entity_destroy 0 w1 = Ok (tt, w1).
Proof.
  destruct active_flag_lifecycle as (_ & _ & Hdestroy & _).
  destruct (Hdestroy 0%nat world_ABC Entity_new) as (_ & w1 & H1 & H2 & H3 & _).
  - reflexivity.
  - by exists w1.
Defined.

Lemma Manager_tick_two_phase_witness :
  (∀ e, e ∈ entities manager_ABC → is_Some (entity_store world_ABC !! e)) ∧
  Manager_tick manager_ABC world_ABC =
    Ok (tt, log world_ABC
              [EntityUpdate 0; EntityUpdate 1; ComponentUpdate 0;
               EntityUpdate 2;
               EntityDraw 0; EntityDraw 1; ComponentDraw 0; EntityDraw 2]).
Proof.
  split; [exact (proj2 manager_ABC_wf)|].
  destruct (Manager_tick_two_phase manager_ABC world_ABC
              (proj2 manager_ABC_wf))
    as (_ & _ & _ & _ & tick & Hrun & -> & _).
  exact Hrun.
Defined.

Lemma maxComponents_bounds_witness :
  registry world_full = snd (requests (seq 0 32) Registry_start) ∧
  entity_store world_full !! 0%nat = Some Entity_new ∧
  Entity_wf Entity_new ∧
  (∃ c w', Entity_addComponent 31 0 world_full = Ok (c, w')) ∧
  Entity_addComponent 32 0 world_full = Undefined OutOfBounds.
Proof.
  split; [reflexivity|]. split; [reflexivity|]. split; [reflexivity|].
  split.
  - destruct (maxComponents_bounds (seq 0 32) 31 0 world_full Entity_new)
      as [Hin _]; [reflexivity..|].
    destruct Hin as (_ & Hadd & _); [vm_compute; lia|exact Hadd].
  - destruct (maxComponents_bounds (seq 0 32) 32 0 world_full Entity_new)
      as [_ Hout]; [reflexivity..|].
    destruct Hout as (_ & Hadd & _); [reflexivity| |exact Hadd].
    intros Hin. apply elem_of_seq in Hin. lia.
Defined.

(** ** [Manager_wf] is an invariant of the interface *)

Lemma Manager_new_wf w : Manager_wf Manager_new w.
Proof.
  split; [apply NoDup_nil_2|]. intros e He. by apply elem_of_nil in He.
Qed.

Lemma Manager_wf_mono m w w' :
  (∀ e, is_Some (entity_store w !! e) → is_Some (entity_store w' !! e)) →
  Manager_wf m w → Manager_wf m w'.
Proof. intros Hmono [Hnd Hlive]. split; [done|]. intros e He. eauto. Qed.

Lemma perform_Manager_wf op m w m' w' :
  Manager_wf m w → perform op m w = Ok (m', w') → Manager_wf m' w'.
Proof.
  intros Hwf H.
  destruct (perform_store _ _ _ _ _ H) as [[-> _]|[Hop Hgrows]].
  - destruct (Manager_refresh_spec m w Hwf) as (w1 & Hrun & _ & Hkept & _).
    simpl in H. rewrite Hrun in H. inv_ret H.
    destruct Hwf as [Hnd Hlive]. split; simpl.
    + by apply NoDup_filter.
    + intros e He. apply list_elem_of_filter in He as [Hact He].
      rewrite Hkept; [by apply Hlive|]. intros _. by apply Is_true_eq_true.
  - assert (Manager_wf m w') as Hwf'.
    { eapply Manager_wf_mono; [|exact Hwf].
      intros e. by apply store_grows_live. }
    destruct op as [e|e|e|e|T e|T e|T e| | | | ]; simpl in H.
    1-9: by (inv_bind H u w1 H1; inv_ret H).
    { by destruct Hop. }
    inv_bind H em w1 H1. inv_ret H. inv_bind H1 e w0 Hnew. inv_ret H1.
    injection Hnew as <- <-. destruct Hwf as [Hnd Hlive].
    split; [|simpl]. 
    + simpl. apply NoDup_app. split; [done|].
      split; [|apply NoDup_singleton].
      intros x Hx Hx'. apply list_elem_of_singleton in Hx' as ->.
      apply (is_fresh (dom (entity_store w))). by apply elem_of_dom, Hlive.
    + intros x Hx. rewrite lookup_insert_is_Some.
      apply elem_of_app in Hx as [Hx|Hx].
      * destruct (decide (fresh (dom (entity_store w)) = x)); [by left|].
        right. split; [done|]. by apply Hlive.
      * apply list_elem_of_singleton in Hx. by left.
Qed.

(** * Further properties *)

(** ** The registry, one request at a time *)

Lemma Registry_tracks_inj order r T1 T2 i :
  Registry_tracks order r →
  typeID r !! T1 = Some i → typeID r !! T2 = Some i → T1 = T2.
Proof.
  intros (_ & _ & _ & _ & Hmap) H1 H2.
  apply Hmap in H1 as (n1 & Hn1 & ->). apply Hmap in H2 as (n2 & Hn2 & Heq).
  assert (n1 = n2) as -> by lia. congruence.
Qed.

Lemma getComponentTypeID_T_step order r T i r' :
  Registry_tracks order r →
  (Z.of_nat (length order) < size_t_modulus)%Z →
  getComponentTypeID_T T r = (i, r') →
  typeID r' !! T = Some i ∧
  (∀ T0 j, typeID r !! T0 = Some j → typeID r' !! T0 = Some j) ∧
  (in_bounds i = true →
   ∃ order', Registry_tracks order' r' ∧
             (Z.of_nat (length order') < size_t_modulus)%Z).
Proof.
  intros Htr Hroom Hid.
  destruct (decide (T ∈ order)) as [Hin|Hnot].
  - apply list_elem_of_lookup_1 in Hin as [n Hn].
    rewrite (Registry_tracks_known _ _ _ _ Htr Hn) in Hid.
    injection Hid as <- <-.
    split; [by apply Htr; eauto|]. split; [done|]. eauto.
  - destruct (Registry_tracks_new _ _ _ Htr Hnot Hroom) as (r1 & Hid1 & Htr1).
    rewrite Hid1 in Hid. injection Hid as <- <-.
    pose proof (Registry_tracks_fresh _ _ _ Htr Hnot) as Hnone.
    split; [|split].
    + apply Htr1. exists (length order). split; [|done].
      rewrite lookup_app_r by lia. by rewrite Nat.sub_diag.
    + intros T0 j Hj. apply Htr in Hj as (n & Hn & ->).
      apply Htr1. exists n. split; [|done]. by apply lookup_app_l_Some.
    + intros Hin. apply in_bounds_range in Hin.
      exists (order ++ [T]). split; [done|].
      rewrite length_app. simpl. unfold maxComponents, size_t_modulus in *.
      lia.
Qed.

(** ** Exact inversions of the calls that return *)

Lemma Entity_addComponent_Ok_exact T this w c w' :
  Entity_addComponent T this w = Ok (c, w') →
  ∃ E i r',
    entity_store w !! this = Some E ∧
    getComponentTypeID_T T (registry w) = (i, r') ∧
    in_bounds i = true ∧
    c = fresh (dom (component_store w)) ∧
    w' = mkWorld r'
           (<[c := mkComponent T this]> (component_store w))
           (<[this := mkEntity (active E) (components E ++ [c])
                        (<[Z.to_nat i := Some c]> (componentArray E))
                        (Z.lor (componentBitSet E) (Z.shiftl 1 i))]>
              (entity_store w))
           (calls w ++ [ComponentInit c]).
Proof.
  intros H. destruct (entity_store w !! this) as [E|] eqn:HE.
  - destruct (getComponentTypeID_T T (registry w)) as [i r'] eqn:Hid.
    destruct (in_bounds i) eqn:Hin.
    + rewrite (Entity_addComponent_spec _ _ _ _ _ _ HE Hid Hin) in H.
      injection H as <- <-. by exists E, i, r'.
    + by rewrite (Entity_addComponent_beyond _ _ _ _ _ _ HE Hid Hin) in H.
  - unfold Entity_addComponent, components_emplace_back, new_Component,
      read, bind in H. simpl in H. by rewrite HE in H.
Qed.

Lemma Entity_getComponent_Ok_exact T this w c w' :
  Entity_getComponent T this w = Ok (c, w') →
  ∃ E i r',
    entity_store w !! this = Some E ∧
    getComponentTypeID_T T (registry w) = (i, r') ∧
    in_bounds i = true ∧
    componentArray E !! Z.to_nat i = Some (Some c) ∧
    w' = mkWorld r' (component_store w) (entity_store w) (calls w).
Proof.
  unfold Entity_getComponent, typeID_of, read, ret, undefined, bind.
  destruct (getComponentTypeID_T T (registry w)) as [i r'] eqn:Hid. simpl.
  destruct (entity_store w !! this) as [E|] eqn:HE; [|done].
  destruct (in_bounds i) eqn:Hin; [|done].
  destruct (componentArray E !! Z.to_nat i) as [[d|]|] eqn:Hslot;
    [|done|done].
  intros [= <- <-]. by exists E, i, r'.
Qed.

(** ** [World_ok] is kept by every operation *)

Lemma World_ok_start : World_ok World_start.
Proof.
  split.
  - exists []. split; [apply Registry_tracks_start|done].
  - intros e E HE. simpl in HE. by rewrite lookup_empty in HE.
Qed.

Lemma Entity_ok_weaken w w' e E :
  (∀ c, c ∈ components E →
        component_store w' !! c = component_store w !! c) →
  (∀ T j, typeID (registry w) !! T = Some j →
          typeID (registry w') !! T = Some j) →
  Entity_ok w e E → Entity_ok w' e E.
Proof.
  intros Hcs Hreg (Hcons & Hnd & Hown & Hslot).
  split; [done|]. split; [done|]. split.
  - intros c Hc. rewrite Hcs by done. by apply Hown.
  - intros i c Hi. destruct (Hslot i c Hi) as (Hc & T & HT & Hid).
    split; [done|]. exists T. rewrite Hcs by done. split; [done|].
    by apply Hreg.
Qed.

Lemma Entity_ok_fields w e E E' :
  components E' = components E →
  componentArray E' = componentArray E →
  componentBitSet E' = componentBitSet E →
  Entity_ok w e E → Entity_ok w e E'.
Proof.
  intros Hc Ha Hb ((Hwf & Hcons) & Hnd & Hown & Hslot).
  unfold Entity_ok, Entity_consistent, Entity_wf, recorded in *.
  rewrite Hc, Ha, Hb. split; [split; [done|exact Hcons]|].
  split; [done|]. split; [exact Hown|exact Hslot].
Qed.

Lemma Entity_new_ok w e : Entity_ok w e Entity_new.
Proof.
  split; [apply Entity_new_consistent|]. split; [apply NoDup_nil_2|].
  split.
  - intros c Hc. by apply elem_of_nil in Hc.
  - intros i c Hi. unfold Entity_new in Hi. cbn [componentArray] in Hi.
    apply lookup_replicate in Hi as [? _]. done.
Qed.

Lemma World_ok_getComponent T this w c w' :
  World_ok w → Entity_getComponent T this w = Ok (c, w') → World_ok w'.
Proof.
  intros [(order & Htr & Hroom) Hents] H.
  apply Entity_getComponent_Ok_exact in H
    as (E & i & r' & HE & Hid & Hin & Hslot & ->).
  destruct (getComponentTypeID_T_step _ _ _ _ _ Htr Hroom Hid)
    as (_ & Hmono & Hnext).
  split; [by apply Hnext|].
  intros e E0 HE0. simpl in HE0.
  eapply Entity_ok_weaken; [| |by apply Hents]; [done|exact Hmono].
Qed.

Lemma World_ok_same w w' :
  registry w' = registry w →
  component_store w' = component_store w →
  entity_store w' = entity_store w →
  World_ok w → World_ok w'.
Proof.
  intros Hr Hc He [Hreg Hents]. split; [by rewrite Hr|].
  intros e E HE. rewrite He in HE.
  eapply Entity_ok_weaken; [| |by apply Hents].
  - intros c _. by rewrite Hc.
  - intros T j. by rewrite Hr.
Qed.

Lemma World_ok_destroy this w u w' :
  World_ok w → Entity_destroy this w = Ok (u, w') → World_ok w'.
Proof.
  intros [Hreg Hents] H.
  destruct (entity_store w !! this) as [E|] eqn:HE.
  2: { unfold Entity_destroy, read, bind in H. by rewrite HE in H. }
  rewrite (Entity_destroy_spec _ _ _ HE) in H. injection H as <- <-.
  split; [done|]. intros e E0 HE0. simpl in HE0.
  destruct (decide (this = e)) as [->|Hne].
  - rewrite lookup_insert_eq in HE0. injection HE0 as <-.
    apply (Entity_ok_fields w e E); [done..|].
    eapply Entity_ok_weaken; [| |by apply Hents]; done.
  - rewrite lookup_insert_ne in HE0 by done.
    eapply Entity_ok_weaken; [| |by apply Hents]; done.
Qed.

Lemma World_ok_addEntity m w em w' :
  World_ok w → Manager_addEntity m w = Ok (em, w') → World_ok w'.
Proof.
  intros [Hreg Hents] H.
  unfold Manager_addEntity, new_Entity, ret, bind in H.
  injection H as <- <-.
  split; [done|]. intros e E HE. simpl in HE.
  destruct (decide (fresh (dom (entity_store w)) = e)) as [<-|Hne].
  - rewrite lookup_insert_eq in HE. injection HE as <-.
    apply Entity_new_ok.
  - rewrite lookup_insert_ne in HE by done.
    eapply Entity_ok_weaken; [| |by apply Hents]; done.
Qed.

Lemma World_ok_addComponent T this w c w' :
  World_ok w → Entity_addComponent T this w = Ok (c, w') → World_ok w'.
Proof.
  intros [(order & Htr & Hroom) Hents] Hadd.
  pose proof Hadd as H.
  apply Entity_addComponent_Ok_exact in H
    as (E & i & r' & HE & Hid & Hin & Hc & Hw').
  destruct (getComponentTypeID_T_step _ _ _ _ _ Htr Hroom Hid)
    as (HT & Hmono & Hnext).
  assert (component_store w !! c = None) as Hfresh.
  { subst c. apply not_elem_of_dom, is_fresh. }
  assert (∀ e0 E0 x, entity_store w !! e0 = Some E0 → x ∈ components E0 →
                     x ≠ c) as Hold.
  { intros e0 E0 x HE0 Hx ->.
    destruct (Hents e0 E0 HE0) as (_ & _ & Hown & _).
    destruct (Hown c Hx) as [T0 HT0]. congruence. }
  assert (∃ E1, entity_store w' !! this = Some E1 ∧ Entity_consistent E1)
    as (E1 & HE1 & Hcons1).
  { destruct (Hents this E HE) as (Hcons & _).
    by apply (Entity_addComponent_consistent _ _ _ _ _ _ HE Hcons Hadd). }
  clear Hadd. subst w'. simpl in HE1. rewrite lookup_insert_eq in HE1.
  injection HE1 as <-.
  split; [by apply Hnext|].
  intros e E0 HE0. simpl in HE0.
  destruct (decide (this = e)) as [<-|Hne].
  - destruct (Hents this E HE) as (_ & Hnd & Hown & Hslot).
    rewrite lookup_insert_eq in HE0. injection HE0 as <-.
    split; [exact Hcons1|]. simpl. split; [|split].
    + apply NoDup_app. split; [done|]. split; [|apply NoDup_singleton].
      intros x Hx Hx'. apply list_elem_of_singleton in Hx'.
      by apply (Hold this E x HE Hx).
    + intros x Hx. apply elem_of_app in Hx as [Hx|Hx].
      * rewrite lookup_insert_ne by (intros <-; by apply (Hold this E c HE Hx)).
        by apply Hown.
      * apply list_elem_of_singleton in Hx as ->. exists T.
        apply lookup_insert_eq.
    + intros j x Hj.
      apply list_lookup_insert_Some in Hj as [(<- & [= <-] & Hlt)|[Hne Hj]].
      * split; [apply elem_of_app; right; apply list_elem_of_here|].
        exists T. split; [apply lookup_insert_eq|].
        rewrite Z2Nat.id; [done|]. by apply in_bounds_range in Hin as [? _].
      * destruct (Hslot j x Hj) as (Hx & T0 & HT0 & Hid0).
        split; [apply elem_of_app; by left|]. exists T0.
        rewrite lookup_insert_ne
          by (intros <-; by apply (Hold this E c HE Hx)).
        split; [done|]. by apply Hmono.
  - rewrite lookup_insert_ne in HE0 by done.
    eapply Entity_ok_weaken; [| |by apply Hents].
    + intros x Hx. simpl. apply lookup_insert_ne.
      intros <-. by apply (Hold e E0 c HE0 Hx).
    + exact Hmono.
Qed.

Lemma Entity_update_Ok_log this w u w' :
  Entity_update this w = Ok (u, w') → ∃ evs, w' = log w evs.
Proof.
  intros H. destruct (entity_store w !! this) as [E|] eqn:HE.
  - rewrite (Entity_update_spec _ _ _ HE) in H. injection H as <- <-. eauto.
  - unfold Entity_update, call, read, bind in H. simpl in H.
    by rewrite HE in H.
Qed.

Lemma Entity_draw_Ok_log this w u w' :
  Entity_draw this w = Ok (u, w') → ∃ evs, w' = log w evs.
Proof.
  intros H. destruct (entity_store w !! this) as [E|] eqn:HE.
  - rewrite (Entity_draw_spec _ _ _ HE) in H. injection H as <- <-. eauto.
  - unfold Entity_draw, call, read, bind in H. simpl in H.
    by rewrite HE in H.
Qed.

Lemma for_each_Ok_log (body : addr → M unit) l :
  (∀ e w u w', body e w = Ok (u, w') → ∃ evs, w' = log w evs) →
  ∀ w u w', for_each l body w = Ok (u, w') → ∃ evs, w' = log w evs.
Proof.
  intros Hbody. induction l as [|e l IH]; intros w u w' H; simpl in H.
  - injection H as <- <-. exists []. by rewrite log_nil.
  - apply bind_Ok_inv in H as (u1 & w1 & H1 & H2).
    apply Hbody in H1 as [evs1 ->]. apply IH in H2 as [evs2 ->].
    exists (evs1 ++ evs2). apply log_log.
Qed.

Lemma World_ok_log w evs : World_ok w → World_ok (log w evs).
Proof. by apply World_ok_same. Qed.

Lemma Manager_refresh_survivors m w m' w' :
  Manager_wf m w → World_ok w →
  Manager_refresh m w = Ok (m', w') →
  registry w' = registry w ∧
  calls w' = calls w ∧
  ∀ e E, entity_store w' !! e = Some E →
         entity_store w !! e = Some E ∧
         (e ∈ entities m → active E = true ∧ e ∈ entities m') ∧
         ∀ c, c ∈ components E →
              component_store w' !! c = component_store w !! c.
Proof.
  intros [Hnd Hlive] [Hreg Hents] H.
  destruct (remove_if_not_active_spec _ w Hnd Hlive)
    as (w1 & Hrun & Hr & Hcalls & Hgone & Hkept & _ & Hckept & _).
  unfold Manager_refresh, bind, ret in H. rewrite Hrun in H.
  injection H as <- <-.
  split; [done|]. split; [done|].
  intros e E HE.
  assert (e ∈ entities m → is_active w e = true) as Hsurv.
  { intros Hin. destruct (is_active w e) eqn:Hact; [done|].
    rewrite (Hgone e Hin Hact) in HE. done. }
  rewrite (Hkept e Hsurv) in HE.
  split; [done|]. split.
  - intros Hin. pose proof (Hsurv Hin) as Hact.
    split; [unfold is_active in Hact; by rewrite HE in Hact|].
    simpl. apply list_elem_of_filter. split; [|done].
    by apply Is_true_eq_left.
  - intros c Hc. apply Hckept. intros e' Hin' Hoff Hc'.
    unfold components_of in Hc'.
    destruct (entity_store w !! e') as [E'|] eqn:HE';
      [|by apply elem_of_nil in Hc'].
    destruct (Hents e E HE) as (_ & _ & Hown & _).
    destruct (Hents e' E' HE') as (_ & _ & Hown' & _).
    destruct (Hown c Hc) as [T HT]. destruct (Hown' c Hc') as [T' HT'].
    assert (e = e') as -> by congruence.
    rewrite (Hsurv Hin') in Hoff. done.
Qed.

Lemma World_ok_refresh m w m' w' :
  Manager_wf m w → World_ok w →
  Manager_refresh m w = Ok (m', w') → World_ok w'.
Proof.
  intros Hwf Hok H.
  destruct (Manager_refresh_survivors m w m' w' Hwf Hok H)
    as (Hr & _ & Hsurv).
  destruct Hok as [Hreg Hents].
  split; [by rewrite Hr|].
  intros e E HE. destruct (Hsurv e E HE) as (HE0 & _ & Hcs).
  eapply Entity_ok_weaken; [exact Hcs| |by apply Hents].
  intros T j. by rewrite Hr.
Qed.

Lemma perform_World_ok op m w m' w' :
  System_ok m w → perform op m w = Ok (m', w') → World_ok w'.
Proof.
  intros [Hwf Hok].
  destruct op as [e|e|e|e|T e|T e|T e| | | | ]; simpl; intros H.
  - inv_bind H u w1 H1. inv_ret H.
    apply Entity_update_Ok_log in H1 as [evs ->]. by apply World_ok_log.
  - inv_bind H u w1 H1. inv_ret H.
    apply Entity_draw_Ok_log in H1 as [evs ->]. by apply World_ok_log.
  - inv_bind H u w1 H1. inv_ret H. inv_bind H1 E w0 Hr. inv_ret H1.
    by apply read_Ok_inv in Hr as [_ ->].
  - inv_bind H u w1 H1. inv_ret H. by eapply World_ok_destroy.
  - inv_bind H u w1 H1. done.
  - inv_bind H c w1 H1. inv_ret H. by eapply World_ok_addComponent.
  - inv_bind H c w1 H1. inv_ret H. by eapply World_ok_getComponent.
  - inv_bind H u w1 H1. inv_ret H.
    eapply for_each_Ok_log in H1 as [evs ->];
      [by apply World_ok_log|apply Entity_update_Ok_log].
  - inv_bind H u w1 H1. inv_ret H.
    eapply for_each_Ok_log in H1 as [evs ->];
      [by apply World_ok_log|apply Entity_draw_Ok_log].
  - by eapply World_ok_refresh.
  - inv_bind H em w1 H1. inv_ret H. by eapply World_ok_addEntity.
Qed.

Lemma perform_System_ok op m w m' w' :
  System_ok m w → perform op m w = Ok (m', w') → System_ok m' w'.
Proof.
  intros Hok H. split.
  - destruct Hok as [Hwf _]. by eapply perform_Manager_wf.
  - by eapply perform_World_ok.
Qed.

Lemma perform_all_System_ok ops : ∀ m w m' w',
  System_ok m w → perform_all ops m w = Ok (m', w') → System_ok m' w'.
Proof.
  induction ops as [|op ops IH]; intros m w m' w' Hok H; simpl in H.
  - by inv_ret H.
  - inv_bind H m1 w1 H1. eapply IH; [|exact H].
    by eapply perform_System_ok.
Qed.

Lemma System_ok_start : System_ok Manager_new World_start.
Proof. split; [apply Manager_new_wf|apply World_ok_start]. Qed.

(** X1. The state the interface maintains is an invariant: it holds at
    program start with an empty manager, every operation that returns
    keeps it, and so does every sequence of operations. In such a
    state the owning pointers of the manager are distinct and live, the
    bitset and the table of every live entity agree, every owned
    component is live and points back to its owner, and every pointer
    in a table is an owned one in the slot of its own kind. *)
Theorem System_ok_invariant :
  System_ok Manager_new World_start ∧
  (∀ op m w m' w',
     System_ok m w → perform op m w = Ok (m', w') → System_ok m' w') ∧
  (∀ ops m w m' w',
     System_ok m w → perform_all ops m w = Ok (m', w') → System_ok m' w').
Proof.
  split; [apply System_ok_start|].
  split; [apply perform_System_ok|].
  intros ops. apply perform_all_System_ok.
Qed.

(** ** What the invariant gives *)

(** X2. In a state the interface maintains, a [getComponent<T>] that
    returns hands out a component the entity owns, live, of kind [T]
    (the [static_cast] in its body is to the object's own type) and
    wired to this entity; the bitset records [T]; and the call changes
    neither store nor the call log. *)
Theorem getComponent_returns_own_kind T this w E c w' :
  World_ok w →
  entity_store w !! this = Some E →
  Entity_getComponent T this w = Ok (c, w') →
  c ∈ components E ∧
  component_store w' !! c = Some (mkComponent T this) ∧
  recorded E (fst (getComponentTypeID_T T (registry w))) = true ∧
  entity_store w' = entity_store w ∧
  component_store w' = component_store w ∧
  calls w' = calls w.
Proof.
  intros [(order & Htr & Hroom) Hents] HE H.
  apply Entity_getComponent_Ok_exact in H
    as (E0 & i & r' & HE0 & Hid & Hin & Hslot & ->).
  rewrite HE in HE0. injection HE0 as <-.
  destruct (getComponentTypeID_T_step _ _ _ _ _ Htr Hroom Hid)
    as (HT & Hmono & Hnext).
  destruct (Hnext Hin) as (order' & Htr' & _).
  destruct (Hents this E HE) as ((_ & Hcons) & _ & _ & Hslots).
  destruct (Hslots _ _ Hslot) as (Hc & T0 & HT0 & Hid0).
  rewrite Z2Nat.id in Hid0 by (by apply in_bounds_range in Hin as [? _]).
  apply Hmono in Hid0.
  assert (T0 = T) as -> by (by eapply Registry_tracks_inj).
  rewrite Hid. simpl. split; [done|]. split; [done|].
  split; [apply (Hcons i Hin); eauto|done].
Qed.

Lemma System_ok_ABC : System_ok manager_ABC world_ABC.
Proof.
  apply (perform_all_System_ok
           [Op_Manager_addEntity; Op_Manager_addEntity;
            Op_Manager_addEntity; Op_addComponent 0 1; Op_destroy 1]
           Manager_new World_start); [apply System_ok_start|].
  vm_compute. reflexivity.
Qed.

Lemma getComponent_returns_own_kind_witness :
  World_ok world_ABC ∧
  entity_store world_ABC !! 1%nat = Some entity_B ∧
  Entity_getComponent 0 1 world_ABC = Ok (0%nat, world_ABC) ∧
  component_store world_ABC !! 0%nat = Some (mkComponent 0 1).
Proof.
  assert (World_ok world_ABC) as Hok by apply System_ok_ABC.
  assert (entity_store world_ABC !! 1%nat = Some entity_B) as HE
    by reflexivity.
  assert (Entity_getComponent 0 1 world_ABC = Ok (0%nat, world_ABC)) as Hget
    by (vm_compute; reflexivity).
  split; [exact Hok|]. split; [exact HE|]. split; [exact Hget|].
  by destruct (getComponent_returns_own_kind 0 1 world_ABC entity_B 0
                 world_ABC Hok HE Hget) as (_ & Hkind & _).
Defined.

(** X3. In a state the interface maintains, with the identity of [T]
    inside the table, [getComponent<T>] returns exactly when the bitset
    of the entity records [T]: with the bit set it returns the pointer
    in the slot and leaves the stores alone; with the bit clear it
    dereferences a null slot. *)
Theorem getComponent_iff_recorded T this w E i r' :
  World_ok w →
  entity_store w !! this = Some E →
  getComponentTypeID_T T (registry w) = (i, r') →
  in_bounds i = true →
  (recorded E i = true →
     ∃ c, componentArray E !! Z.to_nat i = Some (Some c) ∧
          Entity_getComponent T this w =
            Ok (c, mkWorld r' (component_store w) (entity_store w)
                     (calls w))) ∧
  (recorded E i = false →
     Entity_getComponent T this w = Undefined NullSlot).
Proof.
  intros [_ Hents] HE Hid Hin.
  destruct (Hents this E HE) as (Hcons & _). split.
  - intros Hbit. by apply (Entity_getComponent_recorded T this w E i r').
  - intros Hbit. destruct Hcons as [Hwf Hcons].
    destruct (lookup_lt_is_Some_2 (componentArray E) (Z.to_nat i))
      as [slot Hslot]; [by apply in_bounds_slot|].
    rewrite (Entity_getComponent_spec _ _ _ _ _ _ _ HE Hid Hin Hslot).
    destruct slot as [c|]; [|done].
    assert (recorded E i = true) by (apply (Hcons i Hin); eauto).
    congruence.
Qed.

Lemma getComponent_iff_recorded_witness :
  World_ok world_ABC ∧
  entity_store world_ABC !! 0%nat = Some Entity_new ∧
  getComponentTypeID_T 0 (registry world_ABC) = (0%Z, registry world_ABC) ∧
  in_bounds 0 = true ∧
  recorded Entity_new 0 = false ∧
  Entity_getComponent 0 0 world_ABC = Undefined NullSlot.
Proof.
  assert (World_ok world_ABC) as Hok by apply System_ok_ABC.
  split; [exact Hok|]. split; [reflexivity|]. split; [reflexivity|].
  split; [reflexivity|]. split; [reflexivity|].
  destruct (getComponent_iff_recorded 0 0 world_ABC Entity_new 0
              (registry world_ABC) Hok) as [_ Hnull]; [reflexivity..|].
  by apply Hnull.
Defined.

(** X4. In a state the interface maintains no component is owned by two
    entities, and an entity owns no component twice. *)
Theorem components_not_shared w e1 e2 E1 E2 c :
  World_ok w →
  entity_store w !! e1 = Some E1 →
  entity_store w !! e2 = Some E2 →
  c ∈ components E1 → c ∈ components E2 →
  e1 = e2 ∧ NoDup (components E1).
Proof.
  intros [_ Hents] H1 H2 Hc1 Hc2.
  destruct (Hents e1 E1 H1) as (_ & Hnd & Hown1 & _).
  destruct (Hents e2 E2 H2) as (_ & _ & Hown2 & _).
  destruct (Hown1 c Hc1) as [T1 HT1]. destruct (Hown2 c Hc2) as [T2 HT2].
  split; [congruence|done].
Qed.

Lemma components_not_shared_witness :
  World_ok world_ABC ∧
  entity_store world_ABC !! 1%nat = Some entity_B ∧
  0%nat ∈ components entity_B ∧
  NoDup (components entity_B).
Proof.
  assert (World_ok world_ABC) as Hok by apply System_ok_ABC.
  assert (entity_store world_ABC !! 1%nat = Some entity_B) as HE
    by reflexivity.
  assert (0%nat ∈ components entity_B) as Hc by apply list_elem_of_here.
  split; [exact Hok|]. split; [exact HE|]. split; [exact Hc|].
  by destruct (components_not_shared world_ABC 1 1 entity_B entity_B 0
                 Hok HE HE Hc Hc) as [_ Hnd].
Defined.

(** ** What an operation may do to one entity *)

Lemma Entity_extends_refl E : Entity_extends E E.
Proof. split; [done|]. split; [done|]. split; [done|]. eauto. Qed.

Lemma remove_if_not_active_fate l : ∀ w kept w',
  remove_if_not_active l w = Ok (kept, w') →
  ∀ e, entity_store w' !! e = entity_store w !! e ∨
       (e ∈ l ∧ is_active w e = false ∧ entity_store w' !! e = None).
Proof.
  induction l as [|e0 l IH]; intros w kept w' H e; simpl in H.
  - inv_ret H. by left.
  - inv_bind H a w1 H1. unfold Entity_isActive in H1.
    inv_bind H1 E0 w0 Hr. inv_ret H1.
    apply read_Ok_inv in Hr as [HE0 ->].
    destruct (active E0) eqn:Hact.
    + inv_bind H k w2 H2. inv_ret H.
      destruct (IH _ _ _ H2 e) as [Hsame|(Hin & Hoff & Hgone)];
        [by left|].
      right. split; [by right|done].
    + inv_bind H u w2 Hdel.
      rewrite (delete_Entity_spec _ _ _ HE0) in Hdel. inv_ret Hdel.
      assert (is_active w e0 = false) as Hoff0
        by (unfold is_active; by rewrite HE0).
      destruct (IH _ _ _ H e) as [Hsame|(Hin & Hoff & Hgone)];
        simpl in *.
      * destruct (decide (e = e0)) as [->|Hne].
        -- right. rewrite lookup_delete_eq in Hsame.
           split; [by left|done].
        -- left. by rewrite lookup_delete_ne in Hsame.
      * right. split; [by right|]. split; [|done].
        destruct (decide (e = e0)) as [->|Hne]; [done|].
        unfold is_active in *. simpl in Hoff.
        by rewrite lookup_delete_ne in Hoff.
Qed.

(** X5. Whatever operation returns, a live entity either stays live,
    and then its flag has not been set again, its components have only
    been appended to, no bit of its bitset has been cleared and no slot
    of its table has been emptied; or the operation is [refresh()], the
    entity was owned by the manager and inactive, and it is gone. In
    particular no operation removes an active entity or a component. *)
Theorem perform_entity_fate op m w m' w' e E :
  perform op m w = Ok (m', w') →
  entity_store w !! e = Some E →
  (∃ E', entity_store w' !! e = Some E' ∧ Entity_extends E E') ∨
  (op = Op_Manager_refresh ∧ e ∈ entities m ∧ active E = false ∧
   entity_store w' !! e = None).
Proof.
  intros H HE.
  assert (∀ w1, entity_store w1 = entity_store w →
                ∃ E', entity_store w1 !! e = Some E' ∧ Entity_extends E E')
    as Hsame.
  { intros w1 ->. exists E. split; [done|apply Entity_extends_refl]. }
  destruct op as [x|x|x|x|T x|T x|T x| | | | ]; simpl in H.
  - left. inv_bind H u w1 H1. inv_ret H.
    by eapply Hsame, Entity_update_Ok_inv.
  - left. inv_bind H u w1 H1. inv_ret H.
    by eapply Hsame, Entity_draw_Ok_inv.
  - left. inv_bind H u w1 H1. inv_ret H. inv_bind H1 E0 w0 Hr. inv_ret H1.
    apply read_Ok_inv in Hr as [_ ->]. by apply Hsame.
  - left. inv_bind H u w1 H1. inv_ret H.
    apply Entity_destroy_Ok_inv in H1 as (E0 & HE0 & ->).
    destruct (decide (x = e)) as [->|Hne].
    + rewrite lookup_insert_eq. eexists. split; [done|].
      rewrite HE in HE0. injection HE0 as <-.
      split; [done|]. split; [done|]. split; [done|]. eauto.
    + rewrite lookup_insert_ne by done. exists E.
      split; [done|apply Entity_extends_refl].
  - inv_bind H u w1 H1. done.
  - left. inv_bind H c w1 H1. inv_ret H.
    apply Entity_addComponent_Ok_exact in H1
      as (E0 & i & r' & HE0 & Hid & Hin & Hc & ->). simpl.
    destruct (decide (x = e)) as [->|Hne].
    + rewrite lookup_insert_eq. eexists. split; [done|].
      rewrite HE in HE0. injection HE0 as <-.
      split; [done|]. split; [by apply prefix_app_r|]. split.
      * intros j. unfold recorded. simpl. rewrite Z.lor_spec.
        intros ->. done.
      * intros j d Hj. simpl.
        destruct (decide (Z.to_nat i = j)) as [<-|Hne].
        -- exists c. apply list_lookup_insert_eq. by eapply lookup_lt_Some.
        -- exists d. by rewrite list_lookup_insert_ne.
    + rewrite lookup_insert_ne by done. exists E.
      split; [done|apply Entity_extends_refl].
  - left. inv_bind H c w1 H1. inv_ret H.
    by eapply Hsame, Entity_getComponent_Ok_inv.
  - left. inv_bind H u w1 H1. inv_ret H.
    eapply Hsame, for_each_same_store; [|exact H1].
    apply Entity_update_Ok_inv.
  - left. inv_bind H u w1 H1. inv_ret H.
    eapply Hsame, for_each_same_store; [|exact H1].
    apply Entity_draw_Ok_inv.
  - inv_bind H kept w1 H1. inv_ret H.
    destruct (remove_if_not_active_fate _ _ _ _ H1 e)
      as [Hkept|(Hin & Hoff & Hgone)].
    + left. exists E. rewrite Hkept. split; [done|apply Entity_extends_refl].
    + right. split; [done|]. split; [done|]. split; [|done].
      unfold is_active in Hoff. by rewrite HE in Hoff.
  - left. inv_bind H em w1 H1. inv_ret H. inv_bind H1 x w0 Hnew. inv_ret H1.
    injection Hnew as <- <-. simpl. exists E.
    split; [|apply Entity_extends_refl].
    rewrite lookup_insert_ne; [done|].
    intros <-. apply (is_fresh (dom (entity_store w))).
    apply elem_of_dom. eauto.
Qed.

Lemma perform_entity_fate_witness :
  entity_store world_ABC !! 0%nat = Some Entity_new ∧
  ∃ m' w' E',
    perform Op_Manager_refresh manager_ABC world_ABC = Ok (m', w') ∧
    entity_store w' !! 0%nat = Some E' ∧
    Entity_extends Entity_new E'.
Proof.
  split; [reflexivity|].
  destruct (Manager_refresh_spec manager_ABC world_ABC manager_ABC_wf)
    as (w' & Hrun & _).
  destruct (perform_entity_fate Op_Manager_refresh manager_ABC world_ABC
              _ w' 0 Entity_new Hrun)
    as [(E' & HE' & Hext)|(_ & _ & Hoff & _)];
    [reflexivity| |discriminate Hoff].
  eexists _, w', E'. split; [exact Hrun|]. by split.
Defined.

(** ** Attaching one kind twice *)

(** X6. [addComponent<T>] called twice in a row on a live entity
    constructs two distinct components of kind [T]; the entity owns
    both, in this order, and both stay live and receive [init()]; the
    slot of [T] points to the second, which is what [getComponent<T>]
    then returns; [update()] still reaches the first. *)
Theorem addComponent_twice T this w E :
  entity_store w !! this = Some E →
  Entity_wf E →
  in_bounds (fst (getComponentTypeID_T T (registry w))) = true →
  ∃ c1 c2 w2 E2,
    attach_twice T this w = Ok ((c1, c2), w2) ∧
    c1 ≠ c2 ∧
    entity_store w2 !! this = Some E2 ∧
    components E2 = components E ++ [c1; c2] ∧
    component_store w2 !! c1 = Some (mkComponent T this) ∧
    component_store w2 !! c2 = Some (mkComponent T this) ∧
    calls w2 = calls w ++ [ComponentInit c1; ComponentInit c2] ∧
    Entity_getComponent T this w2 = Ok (c2, w2) ∧
    Entity_update this w2 =
      Ok (tt, log w2 (EntityUpdate this ::
                      map ComponentUpdate (components E) ++
                      [ComponentUpdate c1; ComponentUpdate c2])).
Proof.
  intros HE Hwf Hin.
  destruct (getComponentTypeID_T T (registry w)) as [i r'] eqn:Hid.
  simpl in Hin.
  pose proof (getComponentTypeID_T_again _ _ _ _ Hid) as Hid'.
  pose proof (Entity_addComponent_spec _ _ _ _ _ _ HE Hid Hin) as Hadd1.
  simpl in Hadd1.
  set (c1 := fresh (dom (component_store w))) in *.
  set (E1 := mkEntity (active E) (components E ++ [c1])
               (<[Z.to_nat i := Some c1]> (componentArray E))
               (Z.lor (componentBitSet E) (Z.shiftl 1 i))) in *.
  set (w1 := mkWorld r' (<[c1 := mkComponent T this]> (component_store w))
               (<[this := E1]> (entity_store w))
               (calls w ++ [ComponentInit c1])) in *.
  assert (entity_store w1 !! this = Some E1) as HE1
    by apply lookup_insert_eq.
  pose proof (Entity_addComponent_spec T this w1 E1 i r' HE1 Hid' Hin)
    as Hadd2.
  simpl in Hadd2.
  set (c2 := fresh (dom (<[c1 := mkComponent T this]> (component_store w))))
    in *.
  set (E2 := mkEntity (active E) ((components E ++ [c1]) ++ [c2])
               (<[Z.to_nat i := Some c2]>
                  (<[Z.to_nat i := Some c1]> (componentArray E)))
               (Z.lor (Z.lor (componentBitSet E) (Z.shiftl 1 i))
                      (Z.shiftl 1 i))) in *.
  set (w2 := mkWorld r'
               (<[c2 := mkComponent T this]>
                  (<[c1 := mkComponent T this]> (component_store w)))
               (<[this := E2]> (<[this := E1]> (entity_store w)))
               ((calls w ++ [ComponentInit c1]) ++ [ComponentInit c2])) in *.
  assert (c1 ≠ c2) as Hne.
  { intros Heq.
    apply (is_fresh (dom (<[c1 := mkComponent T this]> (component_store w)))).
    fold c2. rewrite <- Heq. apply elem_of_dom.
    rewrite lookup_insert_eq. eauto. }
  assert (entity_store w2 !! this = Some E2) as HE2
    by apply lookup_insert_eq.
  assert (componentArray E2 !! Z.to_nat i = Some (Some c2)) as Hslot.
  { apply list_lookup_insert_eq. rewrite length_insert.
    by apply in_bounds_slot. }
  exists c1, c2, w2, E2.
  split.
  { unfold attach_twice, bind, ret. by rewrite Hadd1, Hadd2. }
  split; [done|]. split; [done|].
  split; [simpl; by rewrite <- app_assoc|].
  split.
  { simpl. rewrite lookup_insert_ne by done. apply lookup_insert_eq. }
  split; [apply lookup_insert_eq|].
  split; [simpl; by rewrite <- app_assoc|].
  split.
  - by rewrite (Entity_getComponent_spec T this w2 E2 i r' (Some c2)
                  HE2 Hid' Hin Hslot).
  - rewrite (Entity_update_spec _ _ _ HE2). simpl.
    by rewrite !map_app, <- app_assoc.
Qed.

Lemma addComponent_twice_witness :
  entity_store world_one !! 0%nat = Some Entity_new ∧
  Entity_wf Entity_new ∧
  in_bounds (fst (getComponentTypeID_T 7 (registry world_one))) = true ∧
  ∃ c1 c2 w2,
    attach_twice 7 0 world_one = Ok ((c1, c2), w2) ∧
    c1 ≠ c2 ∧
    Entity_getComponent 7 0 w2 = Ok (c2, w2).
Proof.
  split; [reflexivity|]. split; [reflexivity|]. split; [reflexivity|].
  destruct (addComponent_twice 7 0 world_one Entity_new)
    as (c1 & c2 & w2 & E2 & Hrun & Hne & _ & _ & _ & _ & _ & Hget & _);
    [reflexivity..|].
  by exists c1, c2, w2.
Defined.

(** ** References across [refresh()] *)

Lemma read_dangling {A} this w (k : Entity → M A) :
  entity_store w !! this = None →
  (E <- read this ;; k E) w = Undefined Dangling.
Proof. intros HE. unfold bind, read. by rewrite HE. Qed.

(** X7. Once an owned entity has been destroyed and [refresh()] has
    run, the manager no longer owns it and the reference [addEntity]
    handed out designates no object: every method of [Entity] on it is
    undefined. A later [update()] or [draw()] of the manager returns,
    and the calls it appends to the log enter exactly the entities
    still owned, in order: the removed entity is not among them. *)
Theorem reference_dangles_after_refresh m w e :
  Manager_wf m w →
  e ∈ entities m →
  is_active w e = false →
  ∃ m' w',
    Manager_refresh m w = Ok (m', w') ∧
    (e ∉ entities m') ∧
    Entity_update e w' = Undefined Dangling ∧
    Entity_draw e w' = Undefined Dangling ∧
    Entity_isActive e w' = Undefined Dangling ∧
    Entity_destroy e w' = Undefined Dangling ∧
    (∀ T, Entity_addComponent T e w' = Undefined Dangling) ∧
    (∀ T, Entity_getComponent T e w' = Undefined Dangling) ∧
    ∃ ups draws,
      Manager_update m' w' = Ok (tt, log w' ups) ∧
      Manager_draw m' w' = Ok (tt, log w' draws) ∧
      entity_updates ups = entities m' ∧
      entity_draws draws = entities m' ∧
      (EntityUpdate e ∉ ups) ∧
      (EntityDraw e ∉ draws).
Proof.
  intros Hwf Hin Hoff.
  destruct (Manager_refresh_spec m w Hwf) as (w' & Hrun & Hgone & Hkept & _).
  pose proof (Hgone e Hin Hoff) as HE.
  assert (e ∉ filter (λ e, is_active w e) (entities m)) as Hnot.
  { rewrite list_elem_of_filter. intros [Hact _]. by rewrite Hoff in Hact. }
  eexists _, w'. split; [exact Hrun|]. simpl.
  split; [done|].
  split.
  { unfold Entity_update, bind, call at 1. simpl.
    unfold read. simpl. by rewrite HE. }
  split.
  { unfold Entity_draw, bind, call at 1. simpl.
    unfold read. simpl. by rewrite HE. }
  split; [by apply read_dangling|].
  split; [by apply read_dangling|].
  split.
  { intros T. unfold Entity_addComponent, bind at 1, new_Component.
    unfold bind at 1, components_emplace_back.
    by rewrite read_dangling. }
  split.
  { intros T. unfold Entity_getComponent, bind at 1, typeID_of.
    destruct (getComponentTypeID_T T (registry w')) as [i r'].
    by rewrite read_dangling. }
  assert (∀ x, x ∈ filter (λ e, is_active w e) (entities m) →
               is_Some (entity_store w' !! x)) as Hlive.
  { intros x Hx. apply list_elem_of_filter in Hx as [Hact Hx].
    rewrite Hkept by (intros _; by apply Is_true_eq_true).
    destruct Hwf as [_ Hl]. by apply Hl. }
  eexists _, _.
  split; [by apply (Manager_update_spec (mkManager _) w')|].
  split; [by apply (Manager_draw_spec (mkManager _) w')|].
  split; [apply entity_updates_update_calls|].
  split; [apply entity_draws_draw_calls|].
  simpl. split.
  - intros Hev.
    apply list_elem_of_In, in_concat in Hev as (evs & Hevs & Hev).
    apply in_map_iff in Hevs as (x & <- & Hx).
    destruct Hev as [[= ->]|Hev].
    + by apply Hnot, list_elem_of_In.
    + by apply in_map_iff in Hev as (c & Hc & _).
  - intros Hev.
    apply list_elem_of_In, in_concat in Hev as (evs & Hevs & Hev).
    apply in_map_iff in Hevs as (x & <- & Hx).
    destruct Hev as [[= ->]|Hev].
    + by apply Hnot, list_elem_of_In.
    + by apply in_map_iff in Hev as (c & Hc & _).
Qed.

Lemma reference_dangles_after_refresh_witness :
  Manager_wf manager_ABC world_ABC ∧
  1%nat ∈ entities manager_ABC ∧
  is_active world_ABC 1 = false ∧
  ∃ m' w', Manager_refresh manager_ABC world_ABC = Ok (m', w') ∧
           Entity_isActive 1 w' = Undefined Dangling.
Proof.
  assert (1%nat ∈ entities manager_ABC) as Hin
    by apply list_elem_of_further, list_elem_of_here.
  split; [exact manager_ABC_wf|]. split; [exact Hin|].
  split; [reflexivity|].
  destruct (reference_dangles_after_refresh manager_ABC world_ABC 1
              manager_ABC_wf Hin)
    as (m' & w' & Hrun & _ & _ & _ & Hact & _); [reflexivity|].
  by exists m', w'.
Defined.

(** X8. [addEntity()] followed by [refresh()] on a well-formed manager:
    the new entity survives the sweep and is the last one owned, after
    the entities that were active, in their order; it is a new entity
    at an address no live entity had. *)
Theorem addEntity_then_refresh_keeps_new m w :
  Manager_wf m w →
  ∃ e m2 w2,
    addEntity_then_refresh m w = Ok ((e, m2), w2) ∧
    entity_store w !! e = None ∧
    entities m2 = filter (λ x, is_active w x) (entities m) ++ [e] ∧
    entity_store w2 !! e = Some Entity_new.
Proof.
  intros Hwf.
  set (e := fresh (dom (entity_store w))).
  set (w1 := mkWorld (registry w) (component_store w)
               (<[e := Entity_new]> (entity_store w)) (calls w)).
  set (m1 := mkManager (entities m ++ [e])).
  assert (Manager_addEntity m w = Ok ((e, m1), w1)) as Hadd by reflexivity.
  assert (entity_store w !! e = None) as Hfresh
    by apply not_elem_of_dom, is_fresh.
  assert (Manager_wf m1 w1) as Hwf1.
  { apply (perform_Manager_wf Op_Manager_addEntity m w); [done|].
    simpl. unfold bind. by rewrite Hadd. }
  destruct (Manager_refresh_spec m1 w1 Hwf1) as (w2 & Hrun & _ & Hkept & _).
  assert (is_active w1 e = true) as Hnew.
  { unfold is_active. simpl. by rewrite lookup_insert_eq. }
  exists e, (mkManager (filter (λ x, is_active w1 x) (entities m1))), w2.
  split.
  { unfold addEntity_then_refresh, bind, ret. rewrite Hadd. simpl.
    fold m1. by rewrite Hrun. }
  split; [done|]. split.
  - simpl. rewrite filter_app. f_equal.
    + apply filter_ext_elem. intros x Hx. unfold is_active. simpl.
      rewrite lookup_insert_ne; [done|]. intros <-.
      destruct Hwf as [_ Hlive]. destruct (Hlive e Hx) as [E HE].
      congruence.
    + rewrite filter_cons_True by (by rewrite Hnew). done.
  - rewrite Hkept by done. simpl. apply lookup_insert_eq.
Qed.

Lemma addEntity_then_refresh_keeps_new_witness :
  Manager_wf manager_ABC world_ABC ∧
  ∃ e m2 w2,
    addEntity_then_refresh manager_ABC world_ABC = Ok ((e, m2), w2) ∧
    entities m2 = [0%nat; 2%nat; e].
Proof.
  split; [exact manager_ABC_wf|].
  destruct (addEntity_then_refresh_keeps_new manager_ABC world_ABC
              manager_ABC_wf) as (e & m2 & w2 & Hrun & _ & Hents & _).
  by exists e, m2, w2.
Defined.

(** ** The registry after a run *)

Lemma Registry_tracks_unique order r1 r2 :
  Registry_tracks order r1 → Registry_tracks order r2 → r1 = r2.
Proof.
  intros (_ & _ & Hlast1 & _ & Hmap1) (_ & _ & Hlast2 & _ & Hmap2).
  destruct r1 as [l1 t1], r2 as [l2 t2]. simpl in *. f_equal; [congruence|].
  apply map_eq. intros T. apply option_eq. intros i.
  by rewrite Hmap1, Hmap2.
Qed.

Lemma first_uses_from_NoDup l : ∀ seen,
  NoDup l → (∀ x, x ∈ l → x ∉ seen) → first_uses_from seen l = l.
Proof.
  induction l as [|x l IH]; intros seen Hnd Hdisj; [done|]. simpl.
  apply NoDup_cons in Hnd as [Hx Hnd].
  destruct (decide (x ∈ seen)) as [Hin|_].
  { destruct (Hdisj x); [by left|done]. }
  f_equal. apply IH; [done|]. intros y Hy Hy'.
  apply elem_of_app in Hy' as [Hy'|Hy'].
  - destruct (Hdisj y); [by right|done].
  - apply list_elem_of_singleton in Hy' as ->. done.
Qed.

(** X9. The registry a run of requests leaves depends only on the order
    in which the kinds were first requested: the run and the run that
    asks once for each kind in first-use order leave the same
    registry. The counter then holds the number of distinct kinds
    requested, exactly the requested kinds have an identity, and a
    further request for any of them changes nothing. The run is one in
    which the 64-bit counter does not wrap. *)
Theorem registry_depends_on_first_uses (Ts : list Kind) :
  (Z.of_nat (length (first_uses Ts)) ≤ size_t_modulus)%Z →
  let r := snd (requests Ts Registry_start) in
  r = snd (requests (first_uses Ts) Registry_start) ∧
  lastID r = (Z.of_nat (length (first_uses Ts)) `mod` size_t_modulus)%Z ∧
  size (typeID r) = length (first_uses Ts) ∧
  (∀ T, is_Some (typeID r !! T) ↔ T ∈ Ts) ∧
  (∀ T, T ∈ Ts → snd (getComponentTypeID_T T r) = r).
Proof.
  intros Hlen.
  destruct (requests_start Ts Hlen) as (ids & r & Hrun & Htr & _).
  rewrite Hrun. simpl.
  pose proof Htr as (Hnd & _ & Hlast & Hsize & Hmap).
  assert (first_uses (first_uses Ts) = first_uses Ts) as Hidem.
  { apply first_uses_from_NoDup; [done|]. intros x _ Hx.
    by apply elem_of_nil in Hx. }
  split.
  { destruct (requests_start (first_uses Ts)) as (ids2 & r2 & Hrun2 & Htr2 & _).
    { by rewrite Hidem. }
    rewrite Hrun2. simpl. rewrite Hidem in Htr2.
    by apply (Registry_tracks_unique (first_uses Ts)). }
  split; [done|]. split; [done|]. split.
  - intros T. rewrite <- first_uses_elem. split.
    + intros [i Hi]. apply Hmap in Hi as (n & Hn & _).
      by eapply list_elem_of_lookup_2.
    + intros HT. apply list_elem_of_lookup_1 in HT as [n Hn].
      exists (Z.of_nat n). apply Hmap. eauto.
  - intros T HT. apply first_uses_elem in HT.
    apply list_elem_of_lookup_1 in HT as [n Hn].
    by rewrite (Registry_tracks_known _ _ _ _ Htr Hn).
Qed.

Lemma registry_depends_on_first_uses_witness :
  Z.le (Z.of_nat (length (first_uses [5; 3; 5; 7; 3]))) size_t_modulus ∧
  snd (requests [5; 3; 5; 7; 3] Registry_start) =
    snd (requests [5; 3; 7] Registry_start).
Proof.
  assert (Z.le (Z.of_nat (length (first_uses [5; 3; 5; 7; 3]))) size_t_modulus)
    as Hlen by (vm_compute; discriminate).
  split; [exact Hlen|].
  by destruct (registry_depends_on_first_uses [5; 3; 5; 7; 3] Hlen)
    as (Heq & _).
Defined.

(** ** Counting the calls of a tick *)

Lemma occurrences_cons {A} `{EqDecision A} (x y : A) l :
  occurrences x (y :: l) =
    ((if decide (y = x) then 1 else 0) + occurrences x l)%nat.
Proof.
  unfold occurrences. rewrite filter_cons. by destruct (decide (y = x)).
Qed.

Lemma occurrences_app {A} `{EqDecision A} (x : A) l1 l2 :
  occurrences x (l1 ++ l2) = (occurrences x l1 + occurrences x l2)%nat.
Proof. unfold occurrences. by rewrite filter_app, length_app. Qed.

Lemma occurrences_absent {A} `{EqDecision A} (x : A) l :
  x ∉ l → occurrences x l = 0%nat.
Proof.
  induction l as [|y l IH]; intros Hx; [done|].
  apply not_elem_of_cons in Hx as [Hne Hx].
  rewrite occurrences_cons, IH by done.
  by destruct (decide (y = x)).
Qed.

Lemma occurrences_NoDup {A} `{EqDecision A} (x : A) l :
  NoDup l → x ∈ l → occurrences x l = 1%nat.
Proof.
  induction l as [|y l IH]; intros Hnd Hx; [by apply elem_of_nil in Hx|].
  apply NoDup_cons in Hnd as [Hy Hnd]. rewrite occurrences_cons.
  apply elem_of_cons in Hx as [->|Hx].
  - rewrite decide_True by done. by rewrite occurrences_absent.
  - rewrite decide_False by (by intros ->). by rewrite IH.
Qed.

Lemma occurrences_map {A B} `{EqDecision A} `{EqDecision B}
    (f : A → B) `{!Inj (=) (=) f} (x : A) l :
  occurrences (f x) (map f l) = occurrences x l.
Proof.
  induction l as [|y l IH]; [done|]. simpl.
  rewrite !occurrences_cons, IH.
  destruct (decide (y = x)) as [->|Hne].
  - by rewrite decide_True.
  - rewrite decide_False; [done|]. by intros ?%(inj f).
Qed.

Lemma occurrences_concat_absent {A B} `{EqDecision B}
    (f : A → list B) (y : B) l :
  (∀ x, x ∈ l → occurrences y (f x) = 0%nat) →
  occurrences y (concat (map f l)) = 0%nat.
Proof.
  induction l as [|x l IH]; intros Hall; [done|]. simpl.
  rewrite occurrences_app, Hall by (by left).
  apply IH. intros z Hz. apply Hall. by right.
Qed.

Lemma occurrences_concat_once {A B} `{EqDecision B}
    (f : A → list B) (y : B) (x : A) l :
  NoDup l → x ∈ l →
  occurrences y (f x) = 1%nat →
  (∀ z, z ∈ l → z ≠ x → occurrences y (f z) = 0%nat) →
  occurrences y (concat (map f l)) = 1%nat.
Proof.
  induction l as [|z l IH]; intros Hnd Hx Hone Hrest;
    [by apply elem_of_nil in Hx|].
  apply NoDup_cons in Hnd as [Hz Hnd]. simpl. rewrite occurrences_app.
  apply elem_of_cons in Hx as [<-|Hx].
  - rewrite Hone, occurrences_concat_absent; [done|].
    intros v Hv. apply Hrest; [by right|]. by intros ->.
  - rewrite Hrest, IH; [done..| |by left|by intros ->].
    intros v Hv. apply Hrest. by right.
Qed.

Lemma occurrences_other_kind (P : Event → bool) ev l :
  Forall (λ x, P x = true) l → P ev = false → occurrences ev l = 0%nat.
Proof.
  intros Hall Hev. apply occurrences_absent. intros Hin.
  rewrite Forall_forall in Hall. apply Hall in Hin. congruence.
Qed.

Lemma occurrences_update_calls w c e :
  occurrences (ComponentUpdate c) (update_calls w e) =
    occurrences c (components_of w e).
Proof.
  unfold update_calls. rewrite occurrences_cons, decide_False by done.
  apply (occurrences_map ComponentUpdate).
Qed.

Lemma occurrences_draw_calls w c e :
  occurrences (ComponentDraw c) (draw_calls w e) =
    occurrences c (components_of w e).
Proof.
  unfold draw_calls. rewrite occurrences_cons, decide_False by done.
  apply (occurrences_map ComponentDraw).
Qed.

Lemma occurrences_EntityUpdate w e z :
  occurrences (EntityUpdate e) (update_calls w z) =
    if decide (z = e) then 1%nat else 0%nat.
Proof.
  unfold update_calls. rewrite occurrences_cons.
  rewrite (occurrences_absent _ (map _ _)).
  - destruct (decide (z = e)) as [->|Hne].
    + by rewrite decide_True.
    + rewrite decide_False; [done|]. by intros [= ->].
  - intros Hin. by apply list_elem_of_fmap in Hin as (c & ? & _).
Qed.

Lemma occurrences_EntityDraw w e z :
  occurrences (EntityDraw e) (draw_calls w z) =
    if decide (z = e) then 1%nat else 0%nat.
Proof.
  unfold draw_calls. rewrite occurrences_cons.
  rewrite (occurrences_absent _ (map _ _)).
  - destruct (decide (z = e)) as [->|Hne].
    + by rewrite decide_True.
    + rewrite decide_False; [done|]. by intros [= ->].
  - intros Hin. by apply list_elem_of_fmap in Hin as (c & ? & _).
Qed.

Lemma Manager_tick_spec m w :
  (∀ e, e ∈ entities m → is_Some (entity_store w !! e)) →
  Manager_tick m w =
    Ok (tt, log w (concat (map (update_calls w) (entities m)) ++
                   concat (map (draw_calls w) (entities m)))).
Proof.
  intros Hlive. unfold Manager_tick, bind.
  rewrite (Manager_update_spec m w Hlive).
  rewrite Manager_draw_spec by done. by rewrite log_log.
Qed.

(** X10. In a state the interface maintains, one tick enters [update()]
    and [draw()] of every owned entity exactly once each, and calls
    [update()] and [draw()] of every component of an owned entity
    exactly once each; it calls [init()] on none. *)
Theorem tick_calls_each_once m w :
  System_ok m w →
  ∃ tick,
    Manager_tick m w = Ok (tt, log w tick) ∧
    (∀ e, e ∈ entities m →
          occurrences (EntityUpdate e) tick = 1%nat ∧
          occurrences (EntityDraw e) tick = 1%nat) ∧
    (∀ e c, e ∈ entities m → c ∈ components_of w e →
            occurrences (ComponentUpdate c) tick = 1%nat ∧
            occurrences (ComponentDraw c) tick = 1%nat) ∧
    (∀ c, occurrences (ComponentInit c) tick = 0%nat).
Proof.
  intros [[Hnd Hlive] [_ Hents]].
  eexists. split; [by apply Manager_tick_spec|].
  pose proof (update_calls_are_updates w (entities m)) as Hups.
  pose proof (draw_calls_are_draws w (entities m)) as Hdraws.
  assert (∀ e z c, e ∈ entities m → z ∈ entities m → z ≠ e →
                   c ∈ components_of w e →
                   occurrences c (components_of w z) = 0%nat) as Hother.
  { intros e z c He Hz Hne Hc. apply occurrences_absent. intros Hc'.
    unfold components_of in Hc, Hc'.
    destruct (entity_store w !! e) as [E|] eqn:HE;
      [|by apply elem_of_nil in Hc].
    destruct (entity_store w !! z) as [Z|] eqn:HZ;
      [|by apply elem_of_nil in Hc'].
    destruct (Hents e E HE) as (_ & _ & Hown & _).
    destruct (Hents z Z HZ) as (_ & _ & Hown' & _).
    destruct (Hown c Hc) as [T HT]. destruct (Hown' c Hc') as [T' HT'].
    congruence. }
  assert (∀ e c, c ∈ components_of w e →
                 occurrences c (components_of w e) = 1%nat) as Hown1.
  { intros e c Hc. apply occurrences_NoDup; [|done].
    unfold components_of in *.
    destruct (entity_store w !! e) as [E|] eqn:HE;
      [|by apply elem_of_nil in Hc].
    by destruct (Hents e E HE) as (_ & ? & _). }
  split; [|split].
  - intros e He. rewrite !occurrences_app. split.
    + rewrite (occurrences_other_kind is_draw _ _ Hdraws) by done.
      rewrite (occurrences_concat_once _ _ e); [done..| |].
      * rewrite occurrences_EntityUpdate. by rewrite decide_True.
      * intros z _ Hne. rewrite occurrences_EntityUpdate.
        by rewrite decide_False.
    + rewrite (occurrences_other_kind is_update _ _ Hups) by done.
      rewrite (occurrences_concat_once _ _ e); [done..| |].
      * rewrite occurrences_EntityDraw. by rewrite decide_True.
      * intros z _ Hne. rewrite occurrences_EntityDraw.
        by rewrite decide_False.
  - intros e c He Hc. rewrite !occurrences_app. split.
    + rewrite (occurrences_other_kind is_draw _ _ Hdraws) by done.
      rewrite (occurrences_concat_once _ _ e); [done..| |].
      * rewrite occurrences_update_calls. by apply Hown1.
      * intros z Hz Hne. rewrite occurrences_update_calls.
        by apply (Hother e).
    + rewrite (occurrences_other_kind is_update _ _ Hups) by done.
      rewrite (occurrences_concat_once _ _ e); [done..| |].
      * rewrite occurrences_draw_calls. by apply Hown1.
      * intros z Hz Hne. rewrite occurrences_draw_calls.
        by apply (Hother e).
  - intros c. rewrite occurrences_app.
    rewrite (occurrences_other_kind is_update _ _ Hups) by done.
    by rewrite (occurrences_other_kind is_draw _ _ Hdraws).
Qed.

Lemma tick_calls_each_once_witness :
  System_ok manager_ABC world_ABC ∧
  ∃ tick,
    Manager_tick manager_ABC world_ABC = Ok (tt, log world_ABC tick) ∧
    occurrences (ComponentUpdate 0) tick = 1%nat.
Proof.
  split; [exact System_ok_ABC|].
  destruct (tick_calls_each_once manager_ABC world_ABC System_ok_ABC)
    as (tick & Hrun & _ & Hcomp & _).
  exists tick. split; [exact Hrun|].
  apply (Hcomp 1%nat 0%nat).
  - apply list_elem_of_further, list_elem_of_here.
  - change (0%nat ∈ [0%nat]). apply list_elem_of_here.
Defined.

(** ** What the calls on one entity leave alone *)

(** X11. In a state the interface maintains, a [getComponent<T>] that
    returns has no effect at all: the world after the call is the world
    before it, the registry included. *)
Theorem getComponent_pure T this w c w' :
  World_ok w →
  Entity_getComponent T this w = Ok (c, w') →
  w' = w.
Proof.
  intros [(order & Htr & Hroom) Hents] H.
  apply Entity_getComponent_Ok_exact in H
    as (E & i & r' & HE & Hid & Hin & Hslot & ->).
  destruct (getComponentTypeID_T_step _ _ _ _ _ Htr Hroom Hid)
    as (HT & Hmono & Hnext).
  destruct (Hnext Hin) as (order' & Htr' & _).
  destruct (Hents this E HE) as (_ & _ & _ & Hslots).
  destruct (Hslots _ _ Hslot) as (_ & T0 & _ & Hid0).
  rewrite Z2Nat.id in Hid0 by (by apply in_bounds_range in Hin as [? _]).
  assert (T0 = T) as -> by (eapply Registry_tracks_inj; eauto).
  unfold getComponentTypeID_T in Hid. rewrite Hid0 in Hid.
  injection Hid as <-. apply World_eta.
Qed.

Lemma getComponent_pure_witness :
  World_ok world_ABC ∧
  Entity_getComponent 0 1 world_ABC = Ok (0%nat, world_ABC).
Proof.
  assert (World_ok world_ABC) as Hok by apply System_ok_ABC.
  split; [exact Hok|].
  destruct (Entity_getComponent 0 1 world_ABC) as [[c w']|f] eqn:Hget;
    [|vm_compute in Hget; discriminate Hget].
  rewrite (getComponent_pure 0 1 world_ABC c w' Hok Hget) in Hget |- *.
  vm_compute in Hget. injection Hget as <-. reflexivity.
Defined.

(** X12. An [addComponent<T>] that returns constructs its component at
    an address no live component had, calls [init()] on it and no other
    hook, and touches only this entity and only the slot and the bit of
    [T]: every other entity, every component that existed, the flag of
    the entity, the other slots of its table and the other bits of its
    bitset are as before. *)
Theorem addComponent_frame T this w c w' :
  Entity_addComponent T this w = Ok (c, w') →
  component_store w !! c = None ∧
  calls w' = calls w ++ [ComponentInit c] ∧
  (∀ e, e ≠ this → entity_store w' !! e = entity_store w !! e) ∧
  (∀ d, d ≠ c → component_store w' !! d = component_store w !! d) ∧
  ∃ E E' i,
    entity_store w !! this = Some E ∧
    entity_store w' !! this = Some E' ∧
    i = fst (getComponentTypeID_T T (registry w)) ∧
    active E' = active E ∧
    (∀ j, j ≠ Z.to_nat i → componentArray E' !! j = componentArray E !! j) ∧
    (∀ j, (0 ≤ j)%Z → j ≠ i → recorded E' j = recorded E j).
Proof.
  intros H.
  apply Entity_addComponent_Ok_exact in H
    as (E & i & r' & HE & Hid & Hin & Hc & ->). simpl.
  split; [subst c; apply not_elem_of_dom, is_fresh|].
  split; [done|].
  split; [intros e Hne; by apply lookup_insert_ne|].
  split; [intros d Hne; by apply lookup_insert_ne|].
  eexists E, _, i. split; [done|]. split; [apply lookup_insert_eq|].
  rewrite Hid. split; [done|]. split; [done|]. simpl. split.
  - intros j Hne. by apply list_lookup_insert_ne.
  - intros j Hj Hne. unfold recorded. simpl.
    apply testbit_set_other; [|done|done].
    by apply in_bounds_range in Hin as [? _].
Qed.

Lemma addComponent_frame_witness :
  ∃ c w',
    Entity_addComponent 3 0 world_ABC = Ok (c, w') ∧
    calls w' = calls world_ABC ++ [ComponentInit c] ∧
    entity_store w' !! 1%nat = Some entity_B.
Proof.
  destruct (Entity_addComponent 3 0 world_ABC) as [[c w']|f] eqn:Hadd;
    [|vm_compute in Hadd; discriminate Hadd].
  destruct (addComponent_frame 3 0 world_ABC c w' Hadd)
    as (_ & Hcalls & Hothers & _).
  exists c, w'. split; [reflexivity|]. split; [exact Hcalls|].
  by rewrite Hothers.
Defined.

(** ** The frame loop *)

Lemma frameDelay_value : frameDelay = 16%Z.
Proof. reflexivity. Qed.

(** X13. At the end of a frame, with [elapsed] the difference of the two
    tick readings modulo [2^32]: if the frame took less than
    [frameDelay] = 16 ms the loop sleeps for the remainder, between 1
    and 16 ms, so that frame and sleep add up to 16 ms, also when the
    tick counter wrapped around during the frame; if it took 16 ms or
    more (and less than [2^31] ms) the loop does not sleep. *)
Theorem frame_pacing_caps (frameStart now : Z) :
  let elapsed := ((now - frameStart) `mod` Uint32_modulus)%Z in
  frameDelay = 16%Z ∧
  ((elapsed < frameDelay)%Z →
     frame_pacing frameStart now = Delay (frameDelay - elapsed) ∧
     (1 ≤ frameDelay - elapsed ≤ 16)%Z) ∧
  ((frameDelay ≤ elapsed ≤ INT_MAX)%Z →
     frame_pacing frameStart now = NoDelay).
Proof.
  intros elapsed. split; [reflexivity|].
  assert (0 ≤ elapsed < Uint32_modulus)%Z as Hrange
    by (apply Z.mod_pos_bound; reflexivity).
  unfold frame_pacing, frameTime, int_of_Uint32. fold elapsed.
  rewrite frameDelay_value. unfold INT_MAX, Uint32_modulus in *.
  split.
  - intros Hfast.
    rewrite (proj2 (Z.leb_le elapsed _)) by lia.
    rewrite (proj2 (Z.ltb_lt elapsed 16)) by lia.
    rewrite (proj2 (Z.leb_le (16 - elapsed) _)) by lia.
    rewrite Z.mod_small by lia. split; [done|lia].
  - intros Hslow.
    rewrite (proj2 (Z.leb_le elapsed _)) by lia.
    by rewrite (proj2 (Z.ltb_ge elapsed 16)) by lia.
Qed.

Lemma frame_pacing_caps_witness :
  (((3 - 4294967291) `mod` Uint32_modulus < frameDelay)%Z) ∧
  frame_pacing 4294967291 3 = Delay 8.
Proof.
  assert (((3 - 4294967291) `mod` Uint32_modulus < frameDelay)%Z) as Hfast
    by reflexivity.
  split; [exact Hfast|].
  destruct (frame_pacing_caps 4294967291 3) as (_ & Hcap & _).
  by destruct (Hcap Hfast) as [-> _].
Defined.

(** ** No component outlives its entity *)

Lemma No_orphans_same w w' :
  component_store w' = component_store w →
  entity_store w' = entity_store w →
  No_orphans w → No_orphans w'.
Proof. intros Hc He H c C. rewrite Hc, He. apply H. Qed.

Lemma No_orphans_log w evs : No_orphans w → No_orphans (log w evs).
Proof. by apply No_orphans_same. Qed.

Lemma No_orphans_refresh m w m' w' :
  Manager_wf m w → World_ok w → No_orphans w →
  Manager_refresh m w = Ok (m', w') → No_orphans w'.
Proof.
  intros [Hnd Hlive] [_ Hents] Horph H.
  destruct (remove_if_not_active_spec _ w Hnd Hlive)
    as (w1 & Hrun & _ & _ & _ & Hkept & Hcgone & Hckept & Hmono).
  unfold Manager_refresh, bind, ret in H. rewrite Hrun in H.
  injection H as <- <-.
  intros c C HC.
  destruct (component_store w !! c) as [C0|] eqn:HC0;
    [|by rewrite (Hmono c HC0) in HC].
  destruct (Horph c C0 HC0) as (E & HE & Hc).
  assert (entity C0 ∈ entities m → is_active w (entity C0) = true) as Hsurv.
  { intros Hin. destruct (is_active w (entity C0)) eqn:Hact; [done|].
    rewrite (Hcgone (entity C0) c Hin Hact) in HC; [done|].
    unfold components_of. by rewrite HE. }
  assert (component_store w1 !! c = component_store w !! c) as Hsame.
  { apply Hckept. intros x Hx Hoff Hcx. unfold components_of in Hcx.
    destruct (entity_store w !! x) as [X|] eqn:HX;
      [|by apply elem_of_nil in Hcx].
    destruct (Hents x X HX) as (_ & _ & Hown & _).
    destruct (Hown c Hcx) as [T HT].
    assert (x = entity C0) as -> by (rewrite HC0 in HT; by injection HT as ->).
    rewrite (Hsurv Hx) in Hoff. done. }
  rewrite Hsame, HC0 in HC. injection HC as <-.
  exists E. split; [|done]. by rewrite (Hkept _ Hsurv).
Qed.

Lemma perform_No_orphans op m w m' w' :
  System_ok m w → No_orphans w →
  perform op m w = Ok (m', w') → No_orphans w'.
Proof.
  intros [Hwf Hok] Horph.
  destruct op as [e|e|e|e|T e|T e|T e| | | | ]; simpl; intros H.
  - inv_bind H u w1 H1. inv_ret H.
    apply Entity_update_Ok_log in H1 as [evs ->]. by apply No_orphans_log.
  - inv_bind H u w1 H1. inv_ret H.
    apply Entity_draw_Ok_log in H1 as [evs ->]. by apply No_orphans_log.
  - inv_bind H u w1 H1. inv_ret H. inv_bind H1 E w0 Hr. inv_ret H1.
    by apply read_Ok_inv in Hr as [_ ->].
  - inv_bind H u w1 H1. inv_ret H.
    destruct (entity_store w !! e) as [E|] eqn:HE.
    2: { unfold Entity_destroy, read, bind in H1. by rewrite HE in H1. }
    rewrite (Entity_destroy_spec _ _ _ HE) in H1. inv_ret H1.
    intros c C HC. simpl in *. destruct (Horph c C HC) as (E0 & HE0 & Hc).
    destruct (decide (e = entity C)) as [->|Hne].
    + rewrite lookup_insert_eq. eexists. split; [done|]. simpl.
      congruence.
    + rewrite lookup_insert_ne by done. eauto.
  - inv_bind H u w1 H1. done.
  - inv_bind H c w1 H1. inv_ret H.
    apply Entity_addComponent_Ok_exact in H1
      as (E & i & r' & HE & Hid & Hin & Hc & ->).
    intros d D HD. simpl in *.
    destruct (decide (c = d)) as [<-|Hne].
    + rewrite lookup_insert_eq in HD. injection HD as <-. simpl.
      rewrite lookup_insert_eq. eexists. split; [done|]. simpl.
      apply elem_of_app. right. apply list_elem_of_here.
    + rewrite lookup_insert_ne in HD by done.
      destruct (Horph d D HD) as (E0 & HE0 & Hd).
      destruct (decide (e = entity D)) as [->|Hne'].
      * rewrite lookup_insert_eq. eexists. split; [done|]. simpl.
        apply elem_of_app. left. congruence.
      * rewrite lookup_insert_ne by done. eauto.
  - inv_bind H c w1 H1. inv_ret H.
    apply Entity_getComponent_Ok_exact in H1
      as (E & i & r' & _ & _ & _ & _ & ->).
    by apply (No_orphans_same w).
  - inv_bind H u w1 H1. inv_ret H.
    eapply for_each_Ok_log in H1 as [evs ->];
      [by apply No_orphans_log|apply Entity_update_Ok_log].
  - inv_bind H u w1 H1. inv_ret H.
    eapply for_each_Ok_log in H1 as [evs ->];
      [by apply No_orphans_log|apply Entity_draw_Ok_log].
  - by eapply No_orphans_refresh.
  - inv_bind H em w1 H1. inv_ret H. inv_bind H1 x w0 Hnew. inv_ret H1.
    injection Hnew as <- <-.
    intros c C HC. simpl in *. destruct (Horph c C HC) as (E0 & HE0 & Hc).
    exists E0. split; [|done]. rewrite lookup_insert_ne; [done|].
    intros Heq. apply (is_fresh (dom (entity_store w))).
    rewrite Heq. apply elem_of_dom. eauto.
Qed.

(** X14. No component outlives its entity: starting from program start,
    after any sequence of operations every live component is owned by a
    live entity, the one its back-reference names; in particular
    [refresh()] leaves behind no component of the entities it
    removes. *)
Theorem no_component_outlives_its_entity ops m w :
  perform_all ops Manager_new World_start = Ok (m, w) →
  System_ok m w ∧
  ∀ c C, component_store w !! c = Some C →
         ∃ E, entity_store w !! entity C = Some E ∧ c ∈ components E.
Proof.
  assert (∀ ops m0 w0 m1 w1,
            System_ok m0 w0 → No_orphans w0 →
            perform_all ops m0 w0 = Ok (m1, w1) →
            System_ok m1 w1 ∧ No_orphans w1) as Hrun.
  { clear. intros ops. induction ops as [|op ops IH];
      intros m0 w0 m1 w1 Hok Horph H; simpl in H.
    - by inv_ret H.
    - inv_bind H m2 w2 H1. eapply IH; [| |exact H].
      + by eapply perform_System_ok.
      + by eapply perform_No_orphans. }
  intros H. apply (Hrun ops Manager_new World_start); [| |done].
  - apply System_ok_start.
  - intros c C HC. simpl in HC. by rewrite lookup_empty in HC.
Qed.

Lemma no_component_outlives_its_entity_witness :
  perform_all [Op_Manager_addEntity; Op_Manager_addEntity;
               Op_Manager_addEntity; Op_addComponent 0 1; Op_destroy 1]
    Manager_new World_start = Ok (manager_ABC, world_ABC) ∧
  ∃ E, entity_store world_ABC !! 1%nat = Some E ∧ 0%nat ∈ components E.
Proof.
  assert (perform_all [Op_Manager_addEntity; Op_Manager_addEntity;
                       Op_Manager_addEntity; Op_addComponent 0 1;
                       Op_destroy 1]
            Manager_new World_start = Ok (manager_ABC, world_ABC)) as Hrun
    by (vm_compute; reflexivity).
  split; [exact Hrun|].
  destruct (no_component_outlives_its_entity _ _ _ Hrun) as [_ Horph].
  apply (Horph 0%nat (mkComponent 0 1)). reflexivity.
Defined.

(** ** The guard of [getComponent] *)

(** C4. Let the precondition of [getComponent<T>] hold: the call
    [hasComponent<T>()] answers [true], or the bitset of the entity
    records [T], which is what that call is there to report. Then, in a
    state the interface maintains and with the identity of [T] inside
    the table, [getComponent<T>] returns: the slot of [T] is not null,
    the component in it is one the entity owns, it is live, of kind [T]
    and wired to this entity, and the call leaves the world as it is.
    The null-slot branch is not reached. *)
Theorem getComponent_safe_when_present T this w E :
  World_ok w →
  entity_store w !! this = Some E →
  in_bounds (fst (getComponentTypeID_T T (registry w))) = true →
  (recorded E (fst (getComponentTypeID_T T (registry w))) = true ∨
   ∃ w0, Entity_hasComponent T this w = Ok (true, w0)) →
  ∃ c,
    Entity_getComponent T this w = Ok (c, w) ∧
    Entity_getComponent T this w ≠ Undefined NullSlot ∧
    componentArray E
      !! Z.to_nat (fst (getComponentTypeID_T T (registry w)))
      = Some (Some c) ∧
    c ∈ components E ∧
    component_store w !! c = Some (mkComponent T this).
Proof.
  intros [(order & Htr & Hroom) Hents] HE Hin [Hbit|[w0 Hhas]];
    [|by rewrite Entity_hasComponent_spec in Hhas].
  destruct (getComponentTypeID_T T (registry w)) as [i r'] eqn:Hid.
  simpl in Hin, Hbit |- *.
  destruct (Hents this E HE) as (Hcons & _ & _ & Hslots).
  destruct (Entity_getComponent_recorded T this w E i r' HE Hcons Hid
              Hin Hbit) as (c & Hslot & Hget).
  destruct (Hslots _ _ Hslot) as (Hc & T0 & HT0 & Hid0).
  rewrite Z2Nat.id in Hid0 by (by apply in_bounds_range in Hin as [? _]).
  destruct (getComponentTypeID_T_step _ _ _ _ _ Htr Hroom Hid)
    as (HT & Hmono & Hnext).
  destruct (Hnext Hin) as (order' & Htr' & _).
  assert (T0 = T) as -> by (eapply Registry_tracks_inj; eauto).
  assert (r' = registry w) as ->.
  { unfold getComponentTypeID_T in Hid. rewrite Hid0 in Hid.
    by injection Hid as <-. }
  rewrite World_eta in Hget. exists c. rewrite Hget.
  split; [done|]. split; [done|]. by split.
Qed.

Lemma getComponent_safe_when_present_witness :
  World_ok world_ABC ∧
  entity_store world_ABC !! 1%nat = Some entity_B ∧
  in_bounds (fst (getComponentTypeID_T 0 (registry world_ABC))) = true ∧
  recorded entity_B (fst (getComponentTypeID_T 0 (registry world_ABC)))
    = true ∧
  Entity_getComponent 0 1 world_ABC = Ok (0%nat, world_ABC).
Proof.
  assert (World_ok world_ABC) as Hok by apply System_ok_ABC.
  split; [exact Hok|]. split; [reflexivity|]. split; [reflexivity|].
  split; [reflexivity|].
  destruct (getComponent_safe_when_present 0 1 world_ABC entity_B Hok)
    as (c & Hget & _ & Hslot & _); [reflexivity..|left; reflexivity|].
  rewrite Hget. vm_compute in Hslot. by injection Hslot as ->.
Defined.
